(** * Contribution-Graph-Pop-Quiz: storage layer, streak state machine and
      reminder reconciliation

    A shallow embedding of [storage.py] (the SQLite-backed store, the
    daily-progress counters and the streak transition) and of the
    reminder-scheduling handlers of [main.py], followed by the theorems
    that settle the specification's claims about them.

    Conventions of the embedding.
    - Python [int] and SQLite [INTEGER] values are mathematical integers
      ([Z]); chat and user identifiers are Telegram's 64-bit ids, which a
      SQLite [INTEGER] holds exactly.
    - Python [str] / SQLite [TEXT] values are [string]s of 8-bit characters.
    - A Python call either returns or raises: [result A].
    - Each table is a finite map from its primary key to the remaining
      columns; [results], which has no key, is a list of rows. *)

From Stdlib Require Import ZArith String Ascii List Lia.
From Stdlib Require Import DecimalString DecimalPos DecimalZ.
From stdpp Require Import gmap strings list sorting.

Local Open Scope Z_scope.

(* ================================================================== *)
(** * Python prelude: exceptions, [int()], [str.split], [str()]        *)
(* ================================================================== *)

Module Py.

(** The exceptions that the modelled code can meet.  The last three derive
    from [BaseException] only, so an [except Exception] clause lets them
    through. *)
Inductive exn : Type :=
| ValueError
| TypeError
| OverflowError
| DatabaseError
| PermissionError
| FileNotFoundError
| OSError
| KeyboardInterrupt
| GeneratorExit
| SystemExit.

Definition is_Exception (e : exn) : bool :=
  match e with
  | KeyboardInterrupt | GeneratorExit | SystemExit => false
  | _ => true
  end.

Inductive result (A : Type) : Type :=
| Ok (a : A)
| Raise (e : exn).

Arguments Ok {A} a.
Arguments Raise {A} e.

#[export] Instance result_ret : MRet result := fun A a => Ok a.
#[export] Instance result_bind : MBind result :=
  fun A B k r => match r with Ok a => k a | Raise e => Raise e end.

Definition is_Ok {A} (r : result A) : bool :=
  match r with Ok _ => true | Raise _ => false end.

#[export] Instance exn_eq_dec : EqDecision exn.
Proof. solve_decision. Defined.

#[export] Instance result_eq_dec {A} `{EqDecision A} : EqDecision (result A).
Proof. solve_decision. Defined.

(** ** Characters *)

Definition ord (c : ascii) : Z := Z.of_N (N_of_ascii c).

(** [str.isspace] on the ASCII range: TAB..CR, FS..US and the space. *)
Definition is_space (c : ascii) : bool :=
  ((9 <=? ord c) && (ord c <=? 13)) || ((28 <=? ord c) && (ord c <=? 32)).

Definition digit_val (c : ascii) : option Z :=
  if (48 <=? ord c) && (ord c <=? 57) then Some (ord c - 48) else None.

Definition digit_char (v : Z) : ascii := ascii_of_N (Z.to_N (48 + v)).

(** ** [str.strip()] *)

Fixpoint lstrip (s : string) : string :=
  match s with
  | String c r => if is_space c then lstrip r else s
  | EmptyString => EmptyString
  end.

Fixpoint rstrip (s : string) : string :=
  match s with
  | String c r =>
      match rstrip r with
      | EmptyString => if is_space c then EmptyString else String c EmptyString
      | r' => String c r'
      end
  | EmptyString => EmptyString
  end.

Definition strip (s : string) : string := rstrip (lstrip s).

(** ** [int(s)] for a [str] argument, base 10

    After stripping white space: an optional sign, then decimal digits in
    which single underscores may separate digits.  Anything else raises
    [ValueError]. *)

(** [int_digits s acc]: [s] follows a digit; [acc] is the value read so far. *)
Fixpoint int_digits (s : string) (acc : Z) : option Z :=
  match s with
  | EmptyString => Some acc
  | String c r =>
      match digit_val c with
      | Some v => int_digits r (10 * acc + v)
      | None =>
          if Ascii.eqb c "_" then
            match r with
            | String c' r' =>
                match digit_val c' with
                | Some v => int_digits r' (10 * acc + v)
                | None => None
                end
            | EmptyString => None
            end
          else None
      end
  end.

Definition int_unsigned (s : string) : option Z :=
  match s with
  | String c r =>
      match digit_val c with
      | Some v => int_digits r v
      | None => None
      end
  | EmptyString => None
  end.

Definition int_signed (s : string) : option Z :=
  match s with
  | String c r =>
      if Ascii.eqb c "+" then int_unsigned r
      else if Ascii.eqb c "-" then Z.opp <$> int_unsigned r
      else int_unsigned s
  | EmptyString => None
  end.

Definition int (s : string) : result Z :=
  match int_signed (strip s) with
  | Some z => Ok z
  | None => Raise ValueError
  end.

(** ** [s.split(sep)] for a one-character separator *)

Fixpoint split (sep : ascii) (s : string) : list string :=
  match s with
  | EmptyString => [EmptyString]
  | String c r =>
      if Ascii.eqb c sep then EmptyString :: split sep r
      else
        match split sep r with
        | h :: t => String c h :: t
        | [] => [String c EmptyString]
        end
  end.

(** ** [str(n)] and the [{n}] of an f-string, for an [int] *)

Definition str (n : Z) : string := NilZero.string_of_int (Z.to_int n).

(** ** ["%0<w>d" % n] for [0 <= n < 10^w]: exactly [w] digits *)

Fixpoint zero_padded (w : nat) (n : Z) (acc : string) : string :=
  match w with
  | O => acc
  | S w' => zero_padded w' (n / 10) (String (digit_char (n mod 10)) acc)
  end.

(** ** Every character of [s] is a decimal digit *)

Fixpoint all_digits (s : string) : bool :=
  match s with
  | EmptyString => true
  | String c r => bool_decide (is_Some (digit_val c)) && all_digits r
  end.

(** ** [s.startswith(p)] *)

Fixpoint startswith (p s : string) : bool :=
  match p, s with
  | EmptyString, _ => true
  | String a p', String b s' => Ascii.eqb a b && startswith p' s'
  | String _ _, EmptyString => false
  end.

End Py.

Import Py.

(* ================================================================== *)
(** * [datetime.date]                                                  *)
(* ================================================================== *)

Module datetime.

Definition MINYEAR : Z := 1.
Definition MAXYEAR : Z := 9999.

Record date : Type := mkdate { year : Z; month : Z; day : Z }.

#[export] Instance date_eq_dec : EqDecision date.
Proof. solve_decision. Defined.

Definition _is_leap (y : Z) : bool :=
  (y mod 4 =? 0) && (negb (y mod 100 =? 0) || (y mod 400 =? 0)).

(** [_DAYS_IN_MONTH = [-1, 31, 28, 31, 30, 31, 30, 31, 31, 30, 31, 30, 31]] *)
Definition _DAYS_IN_MONTH (m : Z) : Z :=
  match m with
  | 1 => 31 | 2 => 28 | 3 => 31 | 4 => 30 | 5 => 31 | 6 => 30
  | 7 => 31 | 8 => 31 | 9 => 30 | 10 => 31 | 11 => 30 | 12 => 31
  | _ => -1
  end.

Definition _days_in_month (y m : Z) : Z :=
  if (m =? 2) && _is_leap y then 29 else _DAYS_IN_MONTH m.

(** [_check_date_fields]: the ranges a [date] must satisfy. *)
Definition valid_fields (y m d : Z) : bool :=
  (MINYEAR <=? y) && (y <=? MAXYEAR) &&
  (1 <=? m) && (m <=? 12) &&
  (1 <=? d) && (d <=? _days_in_month y m).

Definition valid (t : date) : bool := valid_fields (year t) (month t) (day t).

(** [date(y, m, d)] *)
Definition new (y m d : Z) : result date :=
  if valid_fields y m d then Ok (mkdate y m d) else Raise ValueError.

(** The proleptic Gregorian ordinal of a date ([date.toordinal]):
    [_days_before_year], [_days_before_month] and [_ymd2ord]. *)
Definition _days_before_year (y : Z) : Z :=
  let y' := y - 1 in y' * 365 + y' / 4 - y' / 100 + y' / 400.

Definition _DAYS_BEFORE_MONTH (m : Z) : Z :=
  match m with
  | 1 => 0 | 2 => 31 | 3 => 59 | 4 => 90 | 5 => 120 | 6 => 151
  | 7 => 181 | 8 => 212 | 9 => 243 | 10 => 273 | 11 => 304 | 12 => 334
  | _ => -1
  end.

Definition _days_before_month (y m : Z) : Z :=
  _DAYS_BEFORE_MONTH m + (if (2 <? m) && _is_leap y then 1 else 0).

Definition toordinal (t : date) : Z :=
  _days_before_year (year t) + _days_before_month (year t) (month t) + day t.

(** [t - timedelta(days=1)]: the date whose ordinal is one less, and
    [OverflowError] below [date.min], the first of January of year 1. *)
Definition sub_one_day (t : date) : result date :=
  if 1 <? day t then Ok (mkdate (year t) (month t) (day t - 1))
  else if 1 <? month t then
    Ok (mkdate (year t) (month t - 1) (_days_in_month (year t) (month t - 1)))
  else if MINYEAR <? year t then Ok (mkdate (year t - 1) 12 31)
  else Raise OverflowError.

(** [t + timedelta(days=1)], used to speak of consecutive days. *)
Definition add_one_day (t : date) : result date :=
  if day t <? _days_in_month (year t) (month t) then
    Ok (mkdate (year t) (month t) (day t + 1))
  else if month t <? 12 then Ok (mkdate (year t) (month t + 1) 1)
  else if year t <? MAXYEAR then Ok (mkdate (year t + 1) 1 1)
  else Raise OverflowError.

(** [t.isoformat()], that is ["%04d-%02d-%02d" % (year, month, day)] *)
Definition isoformat (t : date) : string :=
  zero_padded 4 (year t)
    (String "-" (zero_padded 2 (month t)
       (String "-" (zero_padded 2 (day t) EmptyString)))).

(** The order of the calendar. *)
Definition date_ltb (a b : date) : bool :=
  (year a <? year b)
  || ((year a =? year b)
      && ((month a <? month b)
          || ((month a =? month b) && (day a <? day b)))).

Definition min : date := mkdate 1 1 1.
Definition max : date := mkdate 9999 12 31.

End datetime.

Import datetime.

(* ================================================================== *)
(** * [storage.py]                                                     *)
(* ================================================================== *)

Module storage.

(** ** The five tables

    - [results(chat_id, user_id, ts, correct)]: a log; [ts] is filled by
      SQLite's clock and read by no query, so a row is
      [(chat_id, user_id, correct)].
    - [daily_progress], key [(chat_id, user_id, day)], column [count].
    - [streaks], key [(chat_id, user_id)], columns
      [(current_streak, best_streak, last_day)]; [last_day] is nullable.
    - [user_prefs], key [(chat_id, user_id)], nullable columns
      [(notify_hour, notify_minute, tz)].
    - [user_names], key [(chat_id, user_id)], nullable [display_name]. *)
Record Store : Type := mkStore {
  results : list (Z * Z * Z);
  daily_progress : gmap (Z * Z * string) Z;
  streaks : gmap (Z * Z) (Z * Z * option string);
  user_prefs : gmap (Z * Z) (option Z * option Z * option string);
  user_names : gmap (Z * Z) (option string)
}.

Definition empty_store : Store := mkStore [] ∅ ∅ ∅ ∅.

Definition set_results (f : list (Z * Z * Z) -> list (Z * Z * Z)) (s : Store) : Store :=
  mkStore (f (results s)) (daily_progress s) (streaks s) (user_prefs s) (user_names s).
Definition set_daily_progress
    (f : gmap (Z * Z * string) Z -> gmap (Z * Z * string) Z) (s : Store) : Store :=
  mkStore (results s) (f (daily_progress s)) (streaks s) (user_prefs s) (user_names s).
Definition set_streaks
    (f : gmap (Z * Z) (Z * Z * option string) -> gmap (Z * Z) (Z * Z * option string))
    (s : Store) : Store :=
  mkStore (results s) (daily_progress s) (f (streaks s)) (user_prefs s) (user_names s).
Definition set_user_prefs
    (f : gmap (Z * Z) (option Z * option Z * option string)
         -> gmap (Z * Z) (option Z * option Z * option string))
    (s : Store) : Store :=
  mkStore (results s) (daily_progress s) (streaks s) (f (user_prefs s)) (user_names s).
Definition set_user_names
    (f : gmap (Z * Z) (option string) -> gmap (Z * Z) (option string)) (s : Store) : Store :=
  mkStore (results s) (daily_progress s) (streaks s) (user_prefs s) (f (user_names s)).

(** ** Connections and the transaction scope [_db]

    A connection sees the database as it is on disk plus its own
    uncommitted statements.  [calls] records the methods the context
    manager invokes on it. *)
Inductive call : Type := Commit | Rollback | Close.

#[export] Instance call_eq_dec : EqDecision call.
Proof. solve_decision. Defined.

Record Conn : Type := mkConn {
  disk : Store;       (* what is durably stored *)
  view : Store;       (* what the connection's statements see and change *)
  calls : list call
}.

Definition _connect (db : Store) : Conn := mkConn db db [].
Definition commit (c : Conn) : Conn := mkConn (view c) (view c) (calls c ++ [Commit]).
Definition rollback (c : Conn) : Conn := mkConn (disk c) (disk c) (calls c ++ [Rollback]).
(** Closing discards whatever was not committed. *)
Definition close (c : Conn) : Conn := mkConn (disk c) (disk c) (calls c ++ [Close]).

(** The body of a [with _db() as conn:] block: statements executed on the
    connection, ending in a value or in an exception. *)
Definition Work (A : Type) : Type := Store -> Store * result A.

(** [[
    conn = _connect()
    try:
        yield conn
        conn.commit()
    except Exception:
        conn.rollback()
        raise
    finally:
        conn.close()
    ]] *)
Definition _db {A} (work : Work A) (db : Store) : Conn * result A :=
  let conn := _connect db in
  let '(v, r) := work (view conn) in
  let conn := mkConn (disk conn) v (calls conn) in
  match r with
  | Ok a => (close (commit conn), Ok a)
  | Raise e =>
      if is_Exception e then (close (rollback conn), Raise e)
      else (close conn, Raise e)
  end.

(** A public function of the module: the database after the call, and
    what the call returned or raised. *)
Definition transact {A} (work : Work A) (db : Store) : Store * result A :=
  let '(conn, r) := _db work db in (disk conn, r).

(** ** Quiz results *)

Definition record_result (chat_id user_id : Z) (is_correct : bool)
  : Store -> Store * result unit :=
  transact (fun v =>
    (set_results (fun l => l ++ [(chat_id, user_id, if is_correct then 1 else 0)]) v,
     Ok tt)).

(** [SUM(correct)] is [NULL] over no rows. *)
Definition sql_sum (l : list Z) : option Z :=
  match l with
  | [] => None
  | _ => Some (foldr Z.add 0 l)
  end.

(** [x or 0] for an [int] or [None]. *)
Definition or_0 (x : option Z) : Z :=
  match x with
  | Some z => if z =? 0 then 0 else z
  | None => 0
  end.

Definition get_score (chat_id user_id : Z) : Store -> Store * result (Z * Z) :=
  transact (fun v =>
    let rows :=
      filter (fun r => r.1.1 = chat_id ∧ r.1.2 = user_id) (results v) in
    let correct := or_0 (sql_sum (snd <$> rows)) in
    let total := or_0 (Some (Z.of_nat (length rows))) in
    (v, Ok (correct, total))).

(** ** Daily progress *)

Definition get_daily_count (chat_id user_id : Z) (day : string)
  : Store -> Store * result Z :=
  transact (fun v =>
    let row := daily_progress v !! (chat_id, user_id, day) in
    (v, Ok (match row with Some count => count | None => 0 end))).

(** [INSERT ... VALUES (?,?,?,1) ON CONFLICT(...) DO UPDATE SET count = count + 1] *)
Definition upsert_daily (k : Z * Z * string) (t : gmap (Z * Z * string) Z)
  : gmap (Z * Z * string) Z :=
  match t !! k with
  | Some count => <[k := count + 1]> t
  | None => <[k := 1]> t
  end.

Definition inc_daily_count (chat_id user_id : Z) (day : string)
  : Store -> Store * result Z :=
  transact (fun v =>
    let v := set_daily_progress (upsert_daily (chat_id, user_id, day)) v in
    let row := daily_progress v !! (chat_id, user_id, day) in
    (v, Ok (match row with Some count => count | None => 0 end))).

(** ** Streaks *)

(** [[
    y, m, d = s.split("-")
    return date(int(y), int(m), int(d))
    ]] *)
Definition _iso_to_date (s : string) : result date :=
  match split "-" s with
  | [y; m; d] =>
      y ← int y; m ← int m; d ← int d; datetime.new y m d
  | _ => Raise ValueError
  end.

(** Truth value of an optional [str]: [None] and [""] are false. *)
Definition truthy (s : option string) : bool :=
  match s with
  | Some s => negb (String.eqb s EmptyString)
  | None => false
  end.

Definition mark_day_complete (chat_id user_id : Z) (day : string)
  : Store -> Store * result (Z * Z * option string) :=
  transact (fun v =>
    let row := streaks v !! (chat_id, user_id) in
    let '(current, best, last) :=
      match row with
      | Some (c, b, l) => (c, b, l)
      | None => (0, 0, None)
      end in
    if bool_decide (last = Some day) then (v, Ok (current, best, last))
    else
      match (today_d ← _iso_to_date day;
             y ← sub_one_day today_d;
             mret (isoformat y)) with
      | Raise e => (v, Raise e)
      | Ok yesterday =>
          let current :=
            if truthy last && bool_decide (last = Some yesterday)
            then current + 1 else 1 in
          let best := Z.max best current in
          (set_streaks <[(chat_id, user_id) := (current, best, Some day)]> v,
           Ok (current, best, Some day))
      end).

Definition get_streak (chat_id user_id : Z)
  : Store -> Store * result (Z * Z * option string) :=
  transact (fun v =>
    match streaks v !! (chat_id, user_id) with
    | None => (v, Ok (0, 0, None))
    | Some (c, b, l) => (v, Ok (c, b, l))
    end).

(** ** Names and preferences *)

Definition set_notify_time (chat_id user_id hour minute : Z) (tz : string)
  : Store -> Store * result unit :=
  transact (fun v =>
    (set_user_prefs <[(chat_id, user_id) := (Some hour, Some minute, Some tz)]> v,
     Ok tt)).

(** [int(x)] of a column value: [int(None)] raises [TypeError]. *)
Definition int_of_column (x : option Z) : result Z :=
  match x with
  | Some z => Ok z
  | None => Raise TypeError
  end.

Definition get_notify_time (chat_id user_id : Z)
  : Store -> Store * result (option (Z * Z * option string)) :=
  transact (fun v =>
    match user_prefs v !! (chat_id, user_id) with
    | None => (v, Ok None)
    | Some (h, m, tz) =>
        (v, h ← int_of_column h; m ← int_of_column m; mret (Some (h, m, tz)))
    end).

Definition set_user_name (chat_id user_id : Z) (display_name : string)
  : Store -> Store * result unit :=
  fun db =>
    if String.eqb display_name EmptyString then (db, Ok tt)
    else
      transact (fun v =>
        (set_user_names <[(chat_id, user_id) := Some display_name]> v, Ok tt)) db.

(** [ORDER BY s.current_streak DESC, s.best_streak DESC, s.user_id ASC]
    on rows [(user_id, current_streak, best_streak)]. *)
Definition board_before (a b : Z * Z * Z) : Prop :=
  a.1.2 > b.1.2
  ∨ (a.1.2 = b.1.2 ∧ (a.2 > b.2 ∨ (a.2 = b.2 ∧ a.1.1 <= b.1.1))).

#[export] Instance board_before_dec a b : Decision (board_before a b).
Proof. unfold board_before. apply _. Defined.

(** [LIMIT n]: a negative [n] means no limit. *)
Definition sql_limit {A} (n : Z) (l : list A) : list A :=
  if n <? 0 then l else take (Z.to_nat n) l.

Definition get_top_streaks (chat_id limit : Z)
  : Store -> Store * result (list (Z * Z * Z * string)) :=
  transact (fun v =>
    let rows :=
      omap (fun kv : Z * Z * (Z * Z * option string) =>
              let '((c, u), (cur, best, _)) := kv in
              if bool_decide (c = chat_id) then Some (u, cur, best) else None)
           (map_to_list (streaks v)) in
    let rows := sql_limit limit (merge_sort board_before rows) in
    (v, Ok ((fun r : Z * Z * Z =>
               let '(u, cur, best) := r in
               let display_name :=
                 match user_names v !! (chat_id, u) with
                 | Some (Some n) => n
                 | _ => String.append "User " (str u)
                 end in
               (u, cur, best, display_name)) <$> rows))).

(** [iter_all_notify_prefs]: the rows are fetched at once ([fetchall]) and
    then yielded one by one; no statement of the block writes. *)
Definition complete_pref (kv : Z * Z * (option Z * option Z * option string))
  : option (Z * Z * Z * Z * string) :=
  match kv with
  | ((c, u), (Some h, Some m, Some tz)) => Some (c, u, h, m, tz)
  | _ => None
  end.

Definition iter_all_notify_prefs
  : Store -> Store * result (list (Z * Z * Z * Z * string)) :=
  transact (fun v => (v, Ok (omap complete_pref (map_to_list (user_prefs v))))).

(** ** The operations the module exposes, as data *)

Inductive op : Type :=
| RecordResult (chat_id user_id : Z) (is_correct : bool)
| GetScore (chat_id user_id : Z)
| GetDailyCount (chat_id user_id : Z) (day : string)
| IncDailyCount (chat_id user_id : Z) (day : string)
| MarkDayComplete (chat_id user_id : Z) (day : string)
| GetStreak (chat_id user_id : Z)
| SetNotifyTime (chat_id user_id hour minute : Z) (tz : string)
| GetNotifyTime (chat_id user_id : Z)
| SetUserName (chat_id user_id : Z) (display_name : string)
| GetTopStreaks (chat_id limit : Z)
| IterAllNotifyPrefs.

(** The database after one operation, whatever it returned or raised. *)
Definition run_op (o : op) (db : Store) : Store :=
  match o with
  | RecordResult c u b => (record_result c u b db).1
  | GetScore c u => (get_score c u db).1
  | GetDailyCount c u d => (get_daily_count c u d db).1
  | IncDailyCount c u d => (inc_daily_count c u d db).1
  | MarkDayComplete c u d => (mark_day_complete c u d db).1
  | GetStreak c u => (get_streak c u db).1
  | SetNotifyTime c u h m tz => (set_notify_time c u h m tz db).1
  | GetNotifyTime c u => (get_notify_time c u db).1
  | SetUserName c u n => (set_user_name c u n db).1
  | GetTopStreaks c n => (get_top_streaks c n db).1
  | IterAllNotifyPrefs => (iter_all_notify_prefs db).1
  end.

Definition run_ops (ops : list op) (db : Store) : Store :=
  foldl (fun db o => run_op o db) db ops.

(** The key an operation writes under, if it writes at all. *)
Definition written_key (o : op) : option (Z * Z) :=
  match o with
  | RecordResult c u _ | IncDailyCount c u _ | MarkDayComplete c u _
  | SetNotifyTime c u _ _ _ | SetUserName c u _ => Some (c, u)
  | _ => None
  end.

(** The [StreakState] invariant of the specification, for one row. *)
Definition streak_row_ok (r : Z * Z * option string) : Prop :=
  let '(current, best, last) := r in
  best >= current ∧ (current > 0 -> last ≠ None).

Definition streaks_ok (db : Store) : Prop :=
  ∀ k r, streaks db !! k = Some r -> streak_row_ok r.

(** The [StreakState] of a key: its row, or what [get_streak] reports
    when there is none. *)
Definition streak_state (chat_id user_id : Z) (db : Store) : Z * Z * option string :=
  match streaks db !! (chat_id, user_id) with
  | Some r => r
  | None => (0, 0, None)
  end.

Definition best_of (chat_id user_id : Z) (db : Store) : Z :=
  (streak_state chat_id user_id db).1.2.

(** The stored count of a key and day, 0 when there is no row. *)
Definition count_of (chat_id user_id : Z) (day : string) (db : Store) : Z :=
  match daily_progress db !! (chat_id, user_id, day) with
  | Some n => n
  | None => 0
  end.

(** A key under which no table holds a row. *)
Definition no_rows (chat_id user_id : Z) (db : Store) : Prop :=
  Forall (fun r : Z * Z * Z => ¬ (r.1.1 = chat_id ∧ r.1.2 = user_id)) (results db)
  ∧ (∀ day, daily_progress db !! (chat_id, user_id, day) = None)
  ∧ streaks db !! (chat_id, user_id) = None
  ∧ user_prefs db !! (chat_id, user_id) = None
  ∧ user_names db !! (chat_id, user_id) = None.

(** How often [commit] or [rollback] was called on a connection. *)
Definition commits_and_rollbacks (c : Conn) : nat :=
  length (filter (fun x => x ≠ Close) (calls c)).

(** Days that follow one another in the calendar. *)
Fixpoint consecutive (ds : list date) : bool :=
  match ds with
  | a :: ((b :: _) as rest) =>
      bool_decide (add_one_day a = Ok b) && consecutive rest
  | _ => true
  end.

(** Marking each day of a list complete, in order, once. *)
Definition mark_all (chat_id user_id : Z) (days : list string) (db : Store) : Store :=
  foldl (fun db d => (mark_day_complete chat_id user_id d db).1) db days.

(** [n] successive [inc_daily_count] calls: the values returned, in order,
    and the database at the end. *)
Fixpoint inc_many (n : nat) (chat_id user_id : Z) (day : string) (db : Store)
  : list (result Z) * Store :=
  match n with
  | O => ([], db)
  | S n' =>
      let '(db1, r) := inc_daily_count chat_id user_id day db in
      let '(rs, db2) := inc_many n' chat_id user_id day db1 in
      (r :: rs, db2)
  end.

End storage.

Import storage.

(* ================================================================== *)
(** * [storage.py]: start-up, corruption recovery and schema           *)
(* ================================================================== *)

Module startup.

(** The two paths the recovery touches: [DB_PATH] and
    [corrupt_path = DB_PATH + ".corrupt"]. *)
Inductive path : Type := DB_PATH | corrupt_path.

#[export] Instance path_eq_dec : EqDecision path.
Proof. solve_decision. Defined.

(** What a file holds: bytes that fail [PRAGMA integrity_check], or a
    database with its tables (name to column names), its indexes and the
    rows of the tables. *)
Inductive content : Type :=
| Garbage (bytes : string)
| Sqlite (schema : gmap string (list string)) (indexes : gset string) (rows : Store).

Inductive event : Type :=
| TryReplace                (* [os.replace(DB_PATH, corrupt_path)] was called *)
| TryRemove (p : path)      (* [os.remove(p)] was called *)
| Sleep (k : nat).          (* [time.sleep(0.4 * k)] *)

#[export] Instance event_eq_dec : EqDecision event.
Proof. solve_decision. Defined.

(** The machine: the two files, the time slept so far in units of 0.4 s,
    and the system calls made. *)
Record World : Type := mkWorld {
  db_file : option content;
  corrupt_file : option content;
  clock : nat;
  log : list event
}.

Definition file (p : path) (w : World) : option content :=
  match p with DB_PATH => db_file w | corrupt_path => corrupt_file w end.

Definition set_file (p : path) (c : option content) (w : World) : World :=
  match p with
  | DB_PATH => mkWorld c (corrupt_file w) (clock w) (log w)
  | corrupt_path => mkWorld (db_file w) c (clock w) (log w)
  end.

Definition record_event (e : event) (w : World) : World :=
  mkWorld (db_file w) (corrupt_file w) (clock w) (log w ++ [e]).

(** The sleeps of a log, in order, and how often [os.remove(p)] was tried. *)
Definition sleeps (l : list event) : list nat :=
  omap (fun e => match e with Sleep k => Some k | _ => None end) l.

Definition removals (p : path) (l : list event) : nat :=
  length (filter (fun e => e = TryRemove p) l).

(** ** The schema *)

Definition RESULTS_SQL : list string := ["chat_id"; "user_id"; "ts"; "correct"].
Definition DAILY_SQL : list string := ["chat_id"; "user_id"; "day"; "count"].
Definition STREAKS_SQL : list string :=
  ["chat_id"; "user_id"; "current_streak"; "best_streak"; "last_day"].
Definition PREFS_SQL : list string :=
  ["chat_id"; "user_id"; "notify_hour"; "notify_minute"; "tz"].
Definition NAMES_SQL : list string := ["chat_id"; "user_id"; "display_name"].

(** The rows of a table that is dropped or created are gone. *)
Definition clear_table (table : string) (rows : Store) : Store :=
  if String.eqb table "results" then set_results (fun _ => []) rows
  else if String.eqb table "daily_progress" then set_daily_progress (fun _ => ∅) rows
  else if String.eqb table "streaks" then set_streaks (fun _ => ∅) rows
  else if String.eqb table "user_prefs" then set_user_prefs (fun _ => ∅) rows
  else if String.eqb table "user_names" then set_user_names (fun _ => ∅) rows
  else rows.

(** [DROP TABLE] also drops the indexes on the table. *)
Definition indexes_of (table : string) : gset string :=
  if String.eqb table "results" then {[ "idx_results_user" ]}
  else if String.eqb table "daily_progress" then {[ "idx_daily_user" ]}
  else ∅.

Definition Database : Type := gmap string (list string) * gset string * Store.

Definition create_table (table : string) (create_sql : list string) (d : Database)
  : Database :=
  let '(schema, indexes, rows) := d in
  (<[table := create_sql]> schema, indexes ∖ indexes_of table, clear_table table rows).

Definition issubset (need have : list string) : bool :=
  forallb (fun c => bool_decide (c ∈ have)) need.

Definition _ensure_table_with_schema
    (table : string) (required_cols create_sql : list string) (d : Database) : Database :=
  match d.1.1 !! table with
  | None => create_table table create_sql d
  | Some have =>
      if issubset required_cols have then d
      else create_table table create_sql d   (* DROP TABLE, then CREATE *)
  end.

Definition _create_or_migrate_schema (d : Database) : Database :=
  let d := _ensure_table_with_schema "results" RESULTS_SQL RESULTS_SQL d in
  let d := _ensure_table_with_schema "daily_progress" DAILY_SQL DAILY_SQL d in
  let d := _ensure_table_with_schema "streaks" STREAKS_SQL STREAKS_SQL d in
  let d := _ensure_table_with_schema "user_prefs" PREFS_SQL PREFS_SQL d in
  let d := _ensure_table_with_schema "user_names" NAMES_SQL NAMES_SQL d in
  let '(schema, indexes, rows) := d in
  (schema, indexes ∪ {[ "idx_results_user" ]} ∪ {[ "idx_daily_user" ]}, rows).

(** The schema [_create_or_migrate_schema] asks for. *)
Definition required_schema : list (string * list string) :=
  [("results", RESULTS_SQL); ("daily_progress", DAILY_SQL); ("streaks", STREAKS_SQL);
   ("user_prefs", PREFS_SQL); ("user_names", NAMES_SQL)].

Definition schema_complete (c : content) : Prop :=
  match c with
  | Garbage _ => False
  | Sqlite schema indexes _ =>
      (∀ t cols, (t, cols) ∈ required_schema ->
         ∃ have, schema !! t = Some have ∧ issubset cols have = true)
      ∧ "idx_results_user" ∈ indexes ∧ "idx_daily_user" ∈ indexes
  end.

(** A database just created: the required tables and nothing in them. *)
Definition fresh (c : content) : Prop :=
  match c with
  | Garbage _ => False
  | Sqlite schema _ rows =>
      schema = list_to_map required_schema ∧ rows = empty_store
  end.

Section os.

(** [locked p t]: at time [t] another process holds the file at [p] open,
    so that renaming or deleting it fails with [PermissionError]. *)
Variable locked : path -> nat -> bool.

Definition os_path_exists (p : path) (w : World) : bool :=
  match file p w with Some _ => true | None => false end.

Definition os_remove (p : path) (w : World) : World * result unit :=
  let w := record_event (TryRemove p) w in
  match file p w with
  | None => (w, Raise FileNotFoundError)
  | Some _ =>
      if locked p (clock w) then (w, Raise PermissionError)
      else (set_file p None w, Ok tt)
  end.

(** [os.replace(DB_PATH, corrupt_path)] *)
Definition os_replace (w : World) : World * result unit :=
  let w := record_event TryReplace w in
  match db_file w with
  | None => (w, Raise FileNotFoundError)
  | Some c =>
      if locked DB_PATH (clock w)
         || (os_path_exists corrupt_path w && locked corrupt_path (clock w))
      then (w, Raise PermissionError)
      else (set_file DB_PATH None (set_file corrupt_path (Some c) w), Ok tt)
  end.

(** [time.sleep(0.4 * k)] *)
Definition time_sleep (k : nat) (w : World) : World :=
  record_event (Sleep k) (mkWorld (db_file w) (corrupt_file w) (clock w + k)%nat (log w)).

(** [_integrity_ok]: the file exists and [PRAGMA integrity_check] says ok. *)
Definition _integrity_ok (w : World) : bool :=
  match db_file w with
  | Some (Sqlite _ _ _) => true
  | _ => false
  end.

(** The first loop of [_try_rotate_or_remove]; [None] when the loop ends
    without returning. *)
Fixpoint rotate_loop (range : list nat) (w : World) : World * option bool :=
  match range with
  | [] => (w, None)
  | i :: range' =>
      let '(w, r) :=
        let '(w, r) :=
          if os_path_exists corrupt_path w then os_remove corrupt_path w
          else (w, Ok tt) in
        match r with
        | Ok _ => os_replace w
        | Raise e => (w, Raise e)
        end in
      match r with
      | Ok _ => (w, Some true)
      | Raise PermissionError => rotate_loop range' (time_sleep (i + 1) w)
      | Raise FileNotFoundError => (w, Some true)
      | Raise _ => rotate_loop range' w
      end
  end.

(** The second loop. *)
Fixpoint remove_loop (range : list nat) (w : World) : World * option bool :=
  match range with
  | [] => (w, None)
  | i :: range' =>
      let '(w, r) :=
        if os_path_exists DB_PATH w then os_remove DB_PATH w else (w, Ok tt) in
      match r with
      | Ok _ => (w, Some true)
      | Raise PermissionError => remove_loop range' (time_sleep (i + 1) w)
      | Raise _ => remove_loop range' w
      end
  end.

Definition _try_rotate_or_remove (w : World) : World * bool :=
  match rotate_loop (seq 0 5) w with
  | (w, Some b) => (w, b)
  | (w, None) =>
      match remove_loop (seq 0 5) w with
      | (w, Some b) => (w, b)
      | (w, None) => (w, false)
      end
  end.

(** [[
    conn = _connect()
    try:
        _create_or_migrate_schema(conn)
        conn.commit()
    finally:
        conn.close()
    ]]
    Connecting creates the file when there is none; a statement on a file
    that is not a database raises [DatabaseError]. *)
Definition connect_and_migrate (w : World) : World * result unit :=
  match db_file w with
  | Some (Garbage _) => (w, Raise DatabaseError)
  | Some (Sqlite schema indexes rows) =>
      let '(schema, indexes, rows) := _create_or_migrate_schema (schema, indexes, rows) in
      (set_file DB_PATH (Some (Sqlite schema indexes rows)) w, Ok tt)
  | None =>
      let '(schema, indexes, rows) := _create_or_migrate_schema (∅, ∅, empty_store) in
      (set_file DB_PATH (Some (Sqlite schema indexes rows)) w, Ok tt)
  end.

Definition init_db (w : World) : World * result unit :=
  if os_path_exists DB_PATH w && negb (_integrity_ok w) then
    let '(w, handled) := _try_rotate_or_remove w in
    if negb handled then (w, Raise DatabaseError)
    else connect_and_migrate w
  else connect_and_migrate w.

End os.

End startup.

(* ================================================================== *)
(** * [main.py]: the reminder jobs                                     *)
(* ================================================================== *)

Module main.

Definition DAILY_CAP : Z := 5.
Definition DEFAULT_TZ : string := "Asia/Kolkata".

(** [datetime.time(hour=, minute=, tzinfo=)] *)
Record time : Type := mktime { hour : Z; minute : Z; tzinfo : string }.

Definition dtime (hour minute : Z) (tzinfo : string) : result time :=
  if (0 <=? hour) && (hour <=? 23) && (0 <=? minute) && (minute <=? 59)
  then Ok (mktime hour minute tzinfo) else Raise ValueError.

Inductive trigger : Type :=
| Daily (t : time)       (* [run_daily] *)
| Once (when : Z).       (* [run_once] *)

(** A job of the queue: its name, the chat it belongs to, its payload
    [{"user_id": ..., "tz": ...}] and when it fires. *)
Record Job : Type := mkJob {
  name : string;
  chat_id : Z;
  data : Z * string;
  fires : trigger
}.

#[export] Instance time_eq_dec : EqDecision time.
Proof. solve_decision. Defined.
#[export] Instance trigger_eq_dec : EqDecision trigger.
Proof. solve_decision. Defined.
#[export] Instance Job_eq_dec : EqDecision Job.
Proof. solve_decision. Defined.

(** ** The job queue: the jobs currently scheduled *)

Definition jobs (jq : list Job) : list Job := jq.

Definition get_jobs_by_name (n : string) (jq : list Job) : list Job :=
  filter (fun j => name j = n) jq.

(** [j.schedule_removal()]: the job leaves the queue.  (Jobs that agree on
    every field are told apart by nothing the handlers look at, and are
    removed together.) *)
Definition schedule_removal (j : Job) (jq : list Job) : list Job :=
  filter (fun j' => j' ≠ j) jq.

Definition run_daily (t : time) (n : string) (c : Z) (d : Z * string) (jq : list Job)
  : list Job :=
  jq ++ [mkJob n c d (Daily t)].

Definition run_once (when : Z) (n : string) (c : Z) (d : Z * string) (jq : list Job)
  : list Job :=
  jq ++ [mkJob n c d (Once when)].

(** [f"daily-{chat_id}-{user_id}"] *)
Definition job_name (chat_id user_id : Z) : string :=
  String.append "daily-" (String.append (str chat_id) (String "-" (str user_id))).

(** [j.name and j.name.startswith("daily-")] *)
Definition is_daily (j : Job) : bool :=
  negb (String.eqb (name j) EmptyString) && startswith "daily-" (name j).

(** ** The Telegram side of a handler call *)

Record User : Type := mkUser {
  id : Z;
  first_name : string;
  last_name : option string;
  username : option string
}.

Record Update : Type := mkUpdate {
  effective_chat_id : Z;
  effective_user : User
}.

(** [" ".join(parts)] *)
Fixpoint join_space (parts : list string) : string :=
  match parts with
  | [] => EmptyString
  | [p] => p
  | p :: rest => String.append p (String " " (join_space rest))
  end.

Definition nonempty (s : string) : bool := negb (String.eqb s EmptyString).

Definition _display_name (u : User) : string :=
  let parts :=
    first_name u ::
    match last_name u with
    | Some l => if nonempty l then [l] else []
    | None => []
    end in
  let s := strip (join_space (List.filter nonempty parts)) in
  if nonempty s then s
  else
    match username u with
    | Some n => if nonempty n then n else String.append "User " (str (id u))
    | None => String.append "User " (str (id u))
    end.

Inductive reply : Type :=
| NoJobQueue         (* "No active daily reminder to cancel (job queue unavailable)." *)
| ReminderDisabled   (* "Daily reminder disabled." *)
| NothingToCancel.   (* "No active daily reminder to cancel." *)

Section handlers.

(** [ZoneInfo(tzname)] succeeds for the zone names the host knows. *)
Variable zone_known : string -> bool.

Definition safe_zoneinfo (tzname : string) : string :=
  if zone_known tzname then tzname else DEFAULT_TZ.

(** The second loop of [_reschedule_all_jobs]: one [run_daily] per row;
    [dtime] may raise, and the jobs installed before stay. *)
Fixpoint install_all (rows : list (Z * Z * Z * Z * string)) (jq : list Job)
  : list Job * result unit :=
  match rows with
  | [] => (jq, Ok tt)
  | (chat_id, user_id, hour, minute, tzname) :: rows' =>
      let tz := safe_zoneinfo tzname in
      let job_name := job_name chat_id user_id in
      match dtime hour minute tz with
      | Raise e => (jq, Raise e)
      | Ok t => install_all rows' (run_daily t job_name chat_id (user_id, tzname) jq)
      end
  end.

(** [app.job_queue] is [None] when the scheduler extra is not installed. *)
Definition _reschedule_all_jobs (job_queue : option (list Job)) (db : Store)
  : option (list Job) * Store * result unit :=
  match job_queue with
  | None => (None, db, Ok tt)
  | Some jq =>
      let jq :=
        foldl (fun q j => if is_daily j then schedule_removal j q else q)
              jq (jobs jq) in
      let '(db, rows) := iter_all_notify_prefs db in
      match rows with
      | Raise e => (Some jq, db, Raise e)
      | Ok rows =>
          let '(jq, r) := install_all rows jq in (Some jq, db, r)
      end
  end.

Definition unnotify (update : Update) (job_queue : option (list Job)) (db : Store)
  : option (list Job) * Store * result reply :=
  let chat := effective_chat_id update in
  let user := id (effective_user update) in
  let '(db, r) := set_user_name chat user (_display_name (effective_user update)) db in
  match r with
  | Raise e => (job_queue, db, Raise e)
  | Ok _ =>
      match job_queue with
      | None => (None, db, Ok NoJobQueue)
      | Some jq =>
          let job_name := job_name chat user in
          let '(jq, removed) :=
            foldl (fun '(q, _) j => (schedule_removal j q, true))
                  (jq, false) (get_jobs_by_name job_name jq) in
          (Some jq, db, Ok (if removed then ReminderDisabled else NothingToCancel))
      end
  end.

End handlers.

(** A persisted row that is a [NotifyPref]: hour 0-23, minute 0-59. *)
Definition pref_in_range (r : Z * Z * Z * Z * string) : Prop :=
  let '(_, _, hour, minute, _) := r in
  0 <= hour <= 23 ∧ 0 <= minute <= 59.

Definition prefs_in_range (db : Store) : Prop :=
  ∀ c u h m tz, user_prefs db !! (c, u) = Some (Some h, Some m, Some tz) ->
                0 <= h <= 23 ∧ 0 <= m <= 59.

(** The rows [iter_all_notify_prefs] yields: the persisted reminders. *)
Definition persisted_prefs (db : Store) : list (Z * Z * Z * Z * string) :=
  omap complete_pref (map_to_list (user_prefs db)).

(** The job [_reschedule_all_jobs] installs for a row. *)
Definition job_of_row (zone_known : string -> bool) (r : Z * Z * Z * Z * string) : Job :=
  let '(c, u, h, m, tz) := r in
  mkJob (job_name c u) c (u, tz) (Daily (mktime h m (safe_zoneinfo zone_known tz))).

End main.

Import startup main.

(* ================================================================== *)
(** * Facts about the prelude                                          *)
(* ================================================================== *)

Section digits.

Lemma digit_char_facts v :
  0 <= v < 10 ->
  digit_val (digit_char v) = Some v
  ∧ is_space (digit_char v) = false
  ∧ Ascii.eqb (digit_char v) "-" = false
  ∧ Ascii.eqb (digit_char v) "+" = false.
Proof.
  intros Hv.
  assert (v = 0 ∨ v = 1 ∨ v = 2 ∨ v = 3 ∨ v = 4 ∨ v = 5 ∨ v = 6 ∨ v = 7 ∨ v = 8 ∨ v = 9)
    as Hcases by lia.
  repeat (destruct Hcases as [-> | Hcases]; [repeat split; reflexivity |]).
  subst v. repeat split; reflexivity.
Qed.

Lemma digit_val_mod n : digit_val (digit_char (n mod 10)) = Some (n mod 10).
Proof. apply digit_char_facts, Z.mod_pos_bound. lia. Qed.

Lemma is_space_mod n : is_space (digit_char (n mod 10)) = false.
Proof. apply digit_char_facts, Z.mod_pos_bound. lia. Qed.

Lemma eqb_dash_mod n : Ascii.eqb (digit_char (n mod 10)) "-" = false.
Proof. apply digit_char_facts, Z.mod_pos_bound. lia. Qed.

Lemma eqb_plus_mod n : Ascii.eqb (digit_char (n mod 10)) "+" = false.
Proof. apply digit_char_facts, Z.mod_pos_bound. lia. Qed.

End digits.

#[local] Opaque digit_char.

Ltac digit_steps :=
  repeat (rewrite ?digit_val_mod, ?is_space_mod, ?eqb_dash_mod, ?eqb_plus_mod; cbn).

Lemma int_zero_padded_4 n :
  0 <= n < 10000 -> int (zero_padded 4 n EmptyString) = Ok n.
Proof.
  intros Hn. unfold int, strip. cbn.
  digit_steps.
  f_equal. Z.div_mod_to_equations. lia.
Qed.

Lemma int_zero_padded_2 n :
  0 <= n < 100 -> int (zero_padded 2 n EmptyString) = Ok n.
Proof.
  intros Hn. unfold int, strip. cbn.
  digit_steps.
  f_equal. Z.div_mod_to_equations. lia.
Qed.

Lemma split_isoformat t :
  split "-" (isoformat t)
  = [zero_padded 4 (year t) EmptyString;
     zero_padded 2 (month t) EmptyString;
     zero_padded 2 (day t) EmptyString].
Proof. unfold isoformat. cbn. digit_steps. reflexivity. Qed.

Lemma valid_fields_bounds y m d :
  valid_fields y m d = true ->
  1 <= y <= 9999 ∧ 1 <= m <= 12 ∧ 1 <= d <= 31 ∧ d <= _days_in_month y m.
Proof.
  unfold valid_fields, MINYEAR, MAXYEAR. intros H.
  repeat (apply andb_prop in H as [H ?]).
  assert (m = 1 ∨ m = 2 ∨ m = 3 ∨ m = 4 ∨ m = 5 ∨ m = 6 ∨ m = 7 ∨ m = 8 ∨ m = 9
          ∨ m = 10 ∨ m = 11 ∨ m = 12) as Hm by lia.
  assert (_days_in_month y m <= 31).
  { unfold _days_in_month.
    repeat (destruct Hm as [-> | Hm]; [destruct (_is_leap y); cbn; lia |]).
    subst m. cbn. lia. }
  lia.
Qed.

(** Parsing what [isoformat] prints gives the date back. *)
Lemma iso_to_date_isoformat t :
  valid t = true -> _iso_to_date (isoformat t) = Ok t.
Proof.
  intros Hv. unfold valid in Hv.
  pose proof (valid_fields_bounds _ _ _ Hv) as (Hy & Hm & Hd & _).
  unfold _iso_to_date. rewrite split_isoformat.
  cbv beta iota. unfold mbind, result_bind.
  rewrite int_zero_padded_4 by lia.
  rewrite (int_zero_padded_2 (month t)) by lia.
  rewrite (int_zero_padded_2 (day t)) by lia.
  unfold new. rewrite Hv. by destruct t.
Qed.

Lemma isoformat_inj a b :
  valid a = true -> valid b = true -> isoformat a = isoformat b -> a = b.
Proof.
  intros Ha Hb Heq.
  apply iso_to_date_isoformat in Ha, Hb. rewrite Heq in Ha. congruence.
Qed.

Lemma isoformat_nonempty t : isoformat t ≠ EmptyString.
Proof. unfold isoformat. cbn. discriminate. Qed.

(* ================================================================== *)
(** * Facts about the calendar                                         *)
(* ================================================================== *)

Lemma month_cases m :
  1 <= m <= 12 ->
  m = 1 ∨ m = 2 ∨ m = 3 ∨ m = 4 ∨ m = 5 ∨ m = 6 ∨ m = 7 ∨ m = 8 ∨ m = 9
  ∨ m = 10 ∨ m = 11 ∨ m = 12.
Proof. lia. Qed.

Ltac by_month Hm :=
  apply month_cases in Hm;
  repeat (destruct Hm as [-> | Hm]); [.. | subst].

Ltac eval_literals :=
  repeat match goal with
  | |- context [Zpos ?a - Zpos ?b] =>
      let v := eval vm_compute in (Zpos a - Zpos b) in
      change (Zpos a - Zpos b) with v
  end.

Ltac bool_to_Prop :=
  repeat match goal with
  | H : _ && _ = true |- _ => apply andb_prop in H as [? ?]
  | H : (_ <=? _) = true |- _ => apply Z.leb_le in H
  | H : (_ <? _) = true |- _ => apply Z.ltb_lt in H
  | H : (_ <? _) = false |- _ => apply Z.ltb_ge in H
  | H : (_ =? _) = true |- _ => apply Z.eqb_eq in H
  | H : (_ =? _) = false |- _ => apply Z.eqb_neq in H
  end.

Lemma valid_unfold t :
  valid t = true ->
  1 <= year t <= 9999 ∧ 1 <= month t <= 12
  ∧ 1 <= day t <= _days_in_month (year t) (month t).
Proof.
  unfold valid, valid_fields, MINYEAR, MAXYEAR. intros H. bool_to_Prop. lia.
Qed.

Lemma valid_fold y m d :
  1 <= y <= 9999 -> 1 <= m <= 12 -> 1 <= d <= _days_in_month y m ->
  valid (mkdate y m d) = true.
Proof.
  intros. unfold valid, valid_fields, MINYEAR, MAXYEAR. cbn.
  repeat (apply andb_true_intro; split); lia.
Qed.

Lemma days_in_month_pos y m : 1 <= m <= 12 -> 28 <= _days_in_month y m <= 31.
Proof.
  intros Hm. unfold _days_in_month.
  by_month Hm; destruct (_is_leap y); cbn; lia.
Qed.

Lemma date_ltb_irrefl a : date_ltb a a = false.
Proof. unfold date_ltb. rewrite !Z.ltb_irrefl, !Z.eqb_refl. reflexivity. Qed.

Lemma date_ltb_lt a b :
  date_ltb a b = true <->
  year a < year b
  ∨ (year a = year b ∧ (month a < month b ∨ (month a = month b ∧ day a < day b))).
Proof.
  unfold date_ltb.
  rewrite !orb_true_iff, !andb_true_iff, !orb_true_iff, !andb_true_iff.
  rewrite !Z.ltb_lt, !Z.eqb_eq. reflexivity.
Qed.

Lemma date_ltb_trans a b c :
  date_ltb a b = true -> date_ltb b c = true -> date_ltb a c = true.
Proof. rewrite !date_ltb_lt. lia. Qed.

(** The day before a date other than [date.min] exists, is a date, and is
    earlier. *)
Lemma sub_one_day_spec t :
  valid t = true -> t ≠ datetime.min ->
  ∃ p, sub_one_day t = Ok p ∧ valid p = true ∧ date_ltb p t = true.
Proof.
  intros Hv Hne. apply valid_unfold in Hv as (Hy & Hm & Hd).
  destruct t as [y m d]; cbn in *.
  unfold sub_one_day, MINYEAR; cbn.
  destruct (1 <? d) eqn:Ed; bool_to_Prop.
  { eexists; split; [done|]. split; [apply valid_fold; lia|].
    apply date_ltb_lt; cbn; lia. }
  destruct (1 <? m) eqn:Em; bool_to_Prop.
  { eexists; split; [done|]. split.
    - pose proof (days_in_month_pos y (m - 1)). apply valid_fold; lia.
    - apply date_ltb_lt; cbn; lia. }
  destruct (1 <? y) eqn:Ey; bool_to_Prop.
  { eexists; split; [done|]. split.
    - apply valid_fold; cbn; lia.
    - apply date_ltb_lt; cbn; lia. }
  exfalso. apply Hne. unfold datetime.min. f_equal; lia.
Qed.

Lemma sub_one_day_min : sub_one_day datetime.min = Raise OverflowError.
Proof. reflexivity. Qed.

(** [sub_one_day] is what [date.__sub__] computes: it lowers the ordinal
    by one. *)
Lemma days_before_year_succ y :
  _days_before_year (y + 1) = _days_before_year y + (if _is_leap y then 366 else 365).
Proof.
  unfold _days_before_year, _is_leap. cbn zeta.
  replace (y + 1 - 1) with y by lia.
  destruct (y mod 4 =? 0) eqn:E4; destruct (y mod 100 =? 0) eqn:E100;
    destruct (y mod 400 =? 0) eqn:E400; cbn; bool_to_Prop;
    Z.div_mod_to_equations; lia.
Qed.

Lemma toordinal_sub_one_day t p :
  valid t = true -> sub_one_day t = Ok p -> toordinal p = toordinal t - 1.
Proof.
  intros Hv Hs. apply valid_unfold in Hv as (Hy & Hm & Hd).
  destruct t as [y m d]; cbn in *.
  unfold sub_one_day, MINYEAR in Hs; cbn in Hs.
  destruct (1 <? d) eqn:Ed; [inversion Hs; subst; unfold toordinal; cbn; lia|].
  destruct (1 <? m) eqn:Em.
  { inversion Hs; subst; clear Hs. bool_to_Prop. unfold toordinal; cbn.
    assert (d = 1) as -> by lia.
    unfold _days_before_month, _days_in_month.
    by_month Hm; try lia; eval_literals; destruct (_is_leap y); cbn; lia. }
  destruct (1 <? y) eqn:Ey; [|discriminate].
  inversion Hs; subst; clear Hs. bool_to_Prop.
  assert (d = 1) as -> by lia. assert (m = 1) as -> by lia.
  unfold toordinal; cbn.
  replace (_days_before_year y) with (_days_before_year (y - 1 + 1)) by (f_equal; lia).
  rewrite days_before_year_succ. unfold _days_before_month.
  destruct (_is_leap (y - 1)); cbn; lia.
Qed.

(** Going forward one day and back again. *)
Lemma sub_add_one_day t t' :
  valid t = true -> add_one_day t = Ok t' ->
  valid t' = true ∧ t' ≠ datetime.min ∧ sub_one_day t' = Ok t.
Proof.
  intros Hv Ha. apply valid_unfold in Hv as (Hy & Hm & Hd).
  destruct t as [y m d]; cbn in *.
  unfold add_one_day, MAXYEAR in Ha; cbn in Ha.
  destruct (d <? _days_in_month y m) eqn:Ed.
  { inversion Ha; subst; clear Ha. bool_to_Prop. split; [apply valid_fold; lia|].
    split; [unfold datetime.min; intros [=]; lia|].
    unfold sub_one_day; cbn.
    destruct (1 <? d + 1) eqn:E; bool_to_Prop; [|lia].
    do 2 f_equal. lia. }
  destruct (m <? 12) eqn:Em.
  { inversion Ha; subst; clear Ha. bool_to_Prop.
    pose proof (days_in_month_pos y (m + 1)).
    split; [apply valid_fold; lia|].
    split; [unfold datetime.min; intros [=]; lia|].
    unfold sub_one_day; cbn.
    destruct (1 <? m + 1) eqn:E; bool_to_Prop; [|lia].
    replace (m + 1 - 1) with m by lia. do 2 f_equal. lia. }
  destruct (y <? 9999) eqn:Ey; [|discriminate].
  inversion Ha; subst; clear Ha. bool_to_Prop.
  assert (m = 12) as -> by lia.
  split; [apply valid_fold; cbn; lia|].
  split; [unfold datetime.min; intros [=]; lia|].
  unfold sub_one_day, MINYEAR; cbn.
  destruct (1 <? y + 1) eqn:E; bool_to_Prop; [|lia].
  replace (y + 1 - 1) with y by lia. do 2 f_equal.
  unfold _days_in_month in Hd, Ed. cbn in Hd, Ed. lia.
Qed.

(** A later date is never the day before an earlier one. *)
Lemma earlier_day_not_yesterday day last p :
  valid day = true -> date_ltb day last = true -> sub_one_day day = Ok p -> p ≠ last.
Proof.
  intros Hv Hlt Hs ->.
  destruct (decide (day = datetime.min)) as [-> | Hne]; [discriminate|].
  destruct (sub_one_day_spec day Hv Hne) as (p & Hp & _ & Hlt').
  rewrite Hs in Hp. inversion Hp; subst.
  pose proof (date_ltb_trans _ _ _ Hlt' Hlt) as Hc.
  by rewrite date_ltb_irrefl in Hc.
Qed.

(* ================================================================== *)
(** * The streak transition                                            *)
(* ================================================================== *)

#[local] Arguments isoformat : simpl never.

Lemma transact_Ok {A} (work : Work A) db v a :
  work db = (v, Ok a) -> transact work db = (v, Ok a).
Proof. intros H. unfold transact, _db. cbn. by rewrite H. Qed.

Lemma transact_Raise {A} (work : Work A) db v e :
  work db = (v, Raise e) -> transact work db = (db, Raise e).
Proof. intros H. unfold transact, _db. cbn. rewrite H. by destruct (is_Exception e). Qed.

Lemma transact_read {A} (work : Work A) db r :
  work db = (db, r) -> transact work db = (db, r).
Proof.
  intros H. destruct r; [by apply transact_Ok | by eapply transact_Raise].
Qed.

Lemma get_streak_state c u db :
  get_streak c u db = (db, Ok (streak_state c u db)).
Proof.
  unfold get_streak, streak_state. apply transact_read.
  by destruct (streaks db !! (c, u)) as [[[? ?] ?]|].
Qed.

(** The whole transition, for the ISO text of a date that has a day
    before it. *)
Lemma mark_day_complete_eq c u t y db :
  valid t = true -> sub_one_day t = Ok y ->
  mark_day_complete c u (isoformat t) db =
  let '(cur, best, last) := streak_state c u db in
  if bool_decide (last = Some (isoformat t)) then (db, Ok (cur, best, last))
  else
    let cur' := if bool_decide (last = Some (isoformat y)) then cur + 1 else 1 in
    (set_streaks <[(c, u) := (cur', Z.max best cur', Some (isoformat t))]> db,
     Ok (cur', Z.max best cur', Some (isoformat t))).
Proof.
  intros Hv Hy. unfold mark_day_complete, streak_state.
  set (row := streaks db !! (c, u)).
  assert (∃ cur best last,
            match row with Some r => r | None => (0, 0, None) end = (cur, best, last)
            ∧ match row with Some (c0, b, l) => (c0, b, l) | None => (0, 0, None) end
              = (cur, best, last)) as (cur & best & last & -> & E).
  { destruct row as [[[? ?] ?]|]; eauto 10. }
  destruct (bool_decide (last = Some (isoformat t))) eqn:Hsame.
  { apply transact_read. subst row. rewrite E. by rewrite Hsame. }
  apply transact_Ok. subst row. rewrite E, Hsame.
  rewrite iso_to_date_isoformat by done. cbn. rewrite Hy. cbn.
  assert (truthy last && bool_decide (last = Some (isoformat y))
          = bool_decide (last = Some (isoformat y))) as ->.
  { destruct (decide (last = Some (isoformat y))) as [-> | Hl].
    - rewrite bool_decide_eq_true_2 by done. cbn.
      destruct (isoformat y) eqn:Ey; [by apply isoformat_nonempty in Ey | done].
    - rewrite bool_decide_eq_false_2 by done. apply andb_false_r. }
  done.
Qed.

Lemma streak_state_insert c u r db :
  streak_state c u (set_streaks <[(c, u) := r]> db) = r.
Proof. unfold streak_state. cbn. by rewrite lookup_insert_eq. Qed.

Lemma mark_all_cons c u day days db :
  mark_all c u (day :: days) db
  = mark_all c u days (mark_day_complete c u day db).1.
Proof. reflexivity. Qed.

Lemma last_cons_cons {A} (a b : A) l : List.last (a :: l) b = List.last l a.
Proof. revert a. induction l as [|x l IH]; intros a; [done|]. cbn in *. by destruct l. Qed.

(** Marking consecutive days, each once: the invariant of the loop. *)
Lemma mark_all_consecutive c u ds : ∀ d db n,
  valid d = true ->
  consecutive (d :: ds) = true ->
  streak_state c u db = (n, n, Some (isoformat d)) ->
  streak_state c u (mark_all c u (isoformat <$> ds) db)
  = (n + Z.of_nat (length ds), n + Z.of_nat (length ds),
     Some (isoformat (List.last ds d))).
Proof.
  induction ds as [|d' ds IH]; intros d db n Hv Hc Hst.
  - cbn. rewrite Hst. do 2 f_equal; lia.
  - cbn [consecutive] in Hc. apply andb_prop in Hc as [Hstep Hc].
    apply bool_decide_eq_true in Hstep.
    destruct (sub_add_one_day _ _ Hv Hstep) as (Hv' & Hne' & Hsub).
    rewrite fmap_cons, mark_all_cons.
    rewrite (mark_day_complete_eq c u d' d db Hv' Hsub), Hst.
    assert (isoformat d ≠ isoformat d') as Hdiff.
    { intros Heq. apply isoformat_inj in Heq; [|done..]. subst d'.
      destruct (sub_one_day_spec d Hv') as (p & Hp & _ & Hlt); [done|].
      rewrite Hsub in Hp. inversion Hp; subst. by rewrite date_ltb_irrefl in Hlt. }
    rewrite bool_decide_eq_false_2 by congruence.
    rewrite bool_decide_eq_true_2 by done. cbn [fst].
    rewrite (IH d' _ (n + 1)); [| done | done |].
    + rewrite last_cons_cons. cbn [length]. rewrite Nat2Z.inj_succ.
      by replace (n + 1 + Z.of_nat (length ds)) with (n + Z.succ (Z.of_nat (length ds))) by lia.
    + rewrite streak_state_insert. do 2 f_equal. lia.
Qed.

(** What one call can do to the database, for any [day] text: nothing, or
    write the row of the key with [day] as its last completed day. *)
Lemma mark_day_complete_cases c u day db :
  let '(cur, best, last) := streak_state c u db in
  (last = Some day
   ∧ mark_day_complete c u day db = (db, Ok (cur, best, last)))
  ∨ (last ≠ Some day
     ∧ ∃ e, mark_day_complete c u day db = (db, Raise e))
  ∨ (last ≠ Some day
     ∧ ∃ cur', (cur' = cur + 1 ∨ cur' = 1)
         ∧ mark_day_complete c u day db
           = (set_streaks <[(c, u) := (cur', Z.max best cur', Some day)]> db,
              Ok (cur', Z.max best cur', Some day))).
Proof.
  unfold mark_day_complete, streak_state.
  set (row := streaks db !! (c, u)).
  assert (∃ cur best last,
            match row with Some r => r | None => (0, 0, None) end = (cur, best, last)
            ∧ match row with Some (c0, b, l) => (c0, b, l) | None => (0, 0, None) end
              = (cur, best, last)) as (cur & best & last & -> & E).
  { destruct row as [[[? ?] ?]|]; eauto 10. }
  destruct (decide (last = Some day)) as [Hsame | Hdiff].
  { left. split; [done|]. apply transact_read. subst row. rewrite E.
    by rewrite bool_decide_eq_true_2. }
  right.
  destruct (today_d ← _iso_to_date day; y ← sub_one_day today_d; mret (isoformat y))
    as [yesterday | e] eqn:Ey.
  - right. split; [done|].
    exists (if truthy last && bool_decide (last = Some yesterday) then cur + 1 else 1).
    split; [destruct (_ && _); auto|].
    apply transact_Ok. subst row. rewrite E. cbv beta iota zeta.
    by rewrite bool_decide_eq_false_2 by done.
  - left. split; [done|]. exists e.
    eapply transact_Raise. subst row. rewrite E. cbv beta iota zeta.
    by rewrite bool_decide_eq_false_2 by done.
Qed.

(** ** C1 *)

(** C1, as stated, fails at the first day of the calendar: for the
    well-formed ISO date ["0001-01-01"] and a key without a row the call
    raises [OverflowError] (there is no day before [date.min]) and no row
    with [current_streak = 1] is written. *)
Lemma mark_day_complete_first_day_raises :
  valid datetime.min = true
  ∧ isoformat datetime.min = "0001-01-01"
  ∧ streaks empty_store !! (7, 42) = None
  ∧ mark_day_complete 7 42 "0001-01-01" empty_store = (empty_store, Raise OverflowError)
  ∧ (streak_state 7 42 (mark_day_complete 7 42 "0001-01-01" empty_store).1).1.1 ≠ 1.
Proof. repeat split; try reflexivity. vm_compute. discriminate. Qed.

(** C1 (amended): for every key and every well-formed ISO date [t] other
    than [date.min], the day [y] before [t] exists, and
    - when the stored last completed day differs from [t], the call sets
      the current streak to the old one plus 1 if the stored last
      completed day is [y], and to 1 otherwise; the best streak becomes the
      maximum of the old best and the new current streak, and the last
      completed day becomes [t];
    - marking the consecutive days [t, t+1, ..., t+k] once each, from no
      prior row, gives a current streak of [k+1] and a best streak of at
      least [k+1]. *)
Theorem mark_day_complete_streak_rule (c u : Z) (t : date) (db : Store) :
  valid t = true -> t ≠ datetime.min ->
  ∃ y, sub_one_day t = Ok y ∧ toordinal y = toordinal t - 1
    ∧ (∀ cur best last,
         streak_state c u db = (cur, best, last) ->
         last ≠ Some (isoformat t) ->
         let cur' := if bool_decide (last = Some (isoformat y)) then cur + 1 else 1 in
         ∃ db', mark_day_complete c u (isoformat t) db
                = (db', Ok (cur', Z.max best cur', Some (isoformat t)))
                ∧ streak_state c u db' = (cur', Z.max best cur', Some (isoformat t)))
    ∧ (∀ ds,
         consecutive (t :: ds) = true ->
         streaks db !! (c, u) = None ->
         ∃ cur best,
           streak_state c u (mark_all c u (isoformat <$> t :: ds) db)
           = (cur, best, Some (isoformat (List.last ds t)))
           ∧ cur = Z.of_nat (length ds) + 1
           ∧ best >= Z.of_nat (length ds) + 1).
Proof.
  intros Hv Hne.
  destruct (sub_one_day_spec t Hv Hne) as (y & Hy & Hvy & Hlt).
  exists y. split; [done|]. split; [by apply toordinal_sub_one_day|].
  split.
  - intros cur best last Hst Hdiff cur'.
    rewrite (mark_day_complete_eq c u t y db Hv Hy), Hst.
    rewrite bool_decide_eq_false_2 by done.
    eexists. split; [reflexivity|]. apply streak_state_insert.
  - intros ds Hc Hnone.
    rewrite fmap_cons, mark_all_cons.
    rewrite (mark_day_complete_eq c u t y db Hv Hy).
    assert (streak_state c u db = (0, 0, None)) as ->
      by (unfold streak_state; by rewrite Hnone).
    rewrite !bool_decide_eq_false_2 by done. cbn [fst].
    rewrite (mark_all_consecutive c u ds t _ 1 Hv Hc)
      by (rewrite streak_state_insert; reflexivity).
    eexists _, _. split; [reflexivity|]. lia.
Qed.

Lemma mark_day_complete_streak_rule_witness :
  valid (mkdate 2024 2 28) = true
  ∧ mkdate 2024 2 28 ≠ datetime.min
  ∧ consecutive [mkdate 2024 2 28; mkdate 2024 2 29; mkdate 2024 3 1] = true
  ∧ streaks empty_store !! (7, 42) = None
  ∧ ∃ cur best,
      streak_state 7 42
        (mark_all 7 42 ["2024-02-28"; "2024-02-29"; "2024-03-01"] empty_store)
      = (cur, best, Some "2024-03-01")
      ∧ cur = 3 ∧ best >= 3.
Proof.
  assert (valid (mkdate 2024 2 28) = true) as Hv by reflexivity.
  assert (mkdate 2024 2 28 ≠ datetime.min) as Hne by discriminate.
  assert (consecutive [mkdate 2024 2 28; mkdate 2024 2 29; mkdate 2024 3 1] = true)
    as Hc by reflexivity.
  assert (streaks empty_store !! (7, 42) = None) as Hnone by reflexivity.
  do 4 (split; [assumption|]).
  destruct (mark_day_complete_streak_rule 7 42 (mkdate 2024 2 28) empty_store Hv Hne)
    as (y & _ & _ & _ & Hseq).
  exact (Hseq [mkdate 2024 2 29; mkdate 2024 3 1] Hc Hnone).
Defined.

(** ** C2 *)

(** C2: [mark_day_complete] is idempotent per day.  If the stored last
    completed day is already [day], the call returns the stored triple and
    leaves the database as it is; and a second call with the same [day]
    right after a first leaves the database as the first left it and
    returns what the first returned. *)
Theorem mark_day_complete_idempotent (c u : Z) (day : string) (db : Store) :
  (∀ cur best,
     streaks db !! (c, u) = Some (cur, best, Some day) ->
     mark_day_complete c u day db = (db, Ok (cur, best, Some day)))
  ∧ (∀ db' r,
       mark_day_complete c u day db = (db', r) ->
       mark_day_complete c u day db' = (db', r)).
Proof.
  split.
  - intros cur best Hrow.
    pose proof (mark_day_complete_cases c u day db) as H.
    unfold streak_state in H. rewrite Hrow in H.
    destruct H as [[_ H] | [[H _] | [H _]]]; done.
  - intros db' r Hfirst.
    pose proof (mark_day_complete_cases c u day db) as H.
    destruct (streak_state c u db) as [[cur best] last].
    destruct H as [[_ H] | [(_ & e & H) | (_ & cur' & _ & H)]];
      rewrite H in Hfirst; inversion Hfirst; subst; clear Hfirst; try done.
    pose proof (mark_day_complete_cases c u day
                  (set_streaks <[(c, u) := (cur', Z.max best cur', Some day)]> db)) as H2.
    rewrite streak_state_insert in H2.
    destruct H2 as [[_ H2] | [[H2 _] | [H2 _]]]; done.
Qed.

Lemma mark_day_complete_idempotent_witness :
  mark_day_complete 7 42 "2024-01-01" empty_store
  = ((mark_day_complete 7 42 "2024-01-01" empty_store).1, Ok (1, 1, Some "2024-01-01"))
  ∧ mark_day_complete 7 42 "2024-01-01"
      (mark_day_complete 7 42 "2024-01-01" empty_store).1
    = ((mark_day_complete 7 42 "2024-01-01" empty_store).1, Ok (1, 1, Some "2024-01-01")).
Proof.
  assert (mark_day_complete 7 42 "2024-01-01" empty_store
          = ((mark_day_complete 7 42 "2024-01-01" empty_store).1,
             Ok (1, 1, Some "2024-01-01"))) as Hfirst by reflexivity.
  split; [exact Hfirst|].
  exact (proj2 (mark_day_complete_idempotent 7 42 "2024-01-01" empty_store) _ _ Hfirst).
Defined.

(** ** C10 *)

(** C10, as stated, fails when the out-of-order day is the first day of
    the calendar: with a row whose last completed day is ["0001-01-02"],
    marking ["0001-01-01"] fails with [OverflowError] and leaves the row
    as it was. *)
Lemma mark_day_complete_earliest_day_fails :
  let db := (mark_day_complete 7 42 "0001-01-02" empty_store).1 in
  streaks db !! (7, 42) = Some (1, 1, Some "0001-01-02")
  ∧ isoformat (mkdate 1 1 2) = "0001-01-02"
  ∧ isoformat datetime.min = "0001-01-01"
  ∧ date_ltb datetime.min (mkdate 1 1 2) = true
  ∧ mark_day_complete 7 42 "0001-01-01" db = (db, Raise OverflowError).
Proof. repeat split; reflexivity. Qed.

(** C10 (amended): for a key whose row has the last completed day [last],
    marking a day [t] strictly earlier than [last] and other than
    [date.min] neither fails nor is ignored: the current streak is reset
    to 1 and the last completed day is moved back to [t] (the best streak
    becomes the maximum of the old best and 1). *)
Theorem mark_day_complete_out_of_order
    (c u : Z) (t last : date) (cur best : Z) (db : Store) :
  valid t = true -> valid last = true ->
  date_ltb t last = true ->
  t ≠ datetime.min ->
  streaks db !! (c, u) = Some (cur, best, Some (isoformat last)) ->
  mark_day_complete c u (isoformat t) db
  = (set_streaks <[(c, u) := (1, Z.max best 1, Some (isoformat t))]> db,
     Ok (1, Z.max best 1, Some (isoformat t))).
Proof.
  intros Hv Hvl Hlt Hne Hrow.
  destruct (sub_one_day_spec t Hv Hne) as (y & Hy & Hvy & _).
  rewrite (mark_day_complete_eq c u t y db Hv Hy).
  unfold streak_state. rewrite Hrow.
  rewrite bool_decide_eq_false_2.
  2:{ intros Heq%(inj Some). apply isoformat_inj in Heq; [|done..]. subst.
      by rewrite date_ltb_irrefl in Hlt. }
  rewrite bool_decide_eq_false_2; [done|].
  intros Heq%(inj Some). apply isoformat_inj in Heq; [|done..]. subst last.
  by apply (earlier_day_not_yesterday t y y).
Qed.

Lemma mark_day_complete_out_of_order_witness :
  let db := (mark_day_complete 7 42 "2024-01-05" empty_store).1 in
  mark_day_complete 7 42 (isoformat (mkdate 2024 1 3)) db
  = (set_streaks <[(7, 42) := (1, Z.max 1 1, Some (isoformat (mkdate 2024 1 3)))]> db,
     Ok (1, Z.max 1 1, Some (isoformat (mkdate 2024 1 3)))).
Proof.
  intros db.
  apply (mark_day_complete_out_of_order 7 42 (mkdate 2024 1 3) (mkdate 2024 1 5) 1 1 db);
    [reflexivity | reflexivity | reflexivity | discriminate | reflexivity].
Defined.

(* ================================================================== *)
(** * The invariant of the streak table                                *)
(* ================================================================== *)

Lemma transact_fst {A} (work : Work A) db :
  (transact work db).1
  = match (work db).2 with Ok _ => (work db).1 | Raise _ => db end.
Proof.
  unfold transact, _db. cbn. destruct (work db) as [v [a|e]]; cbn; [done|].
  by destruct (is_Exception e).
Qed.

Lemma get_notify_time_db c u db : (get_notify_time c u db).1 = db.
Proof.
  unfold get_notify_time. rewrite transact_fst.
  destruct (user_prefs db !! (c, u)) as [[[h m] tz]|]; cbn; [|done].
  by destruct (_ : result (option (Z * Z * option string))).
Qed.

Lemma set_user_name_db c u n db :
  (set_user_name c u n db).1
  = if String.eqb n EmptyString then db
    else set_user_names <[(c, u) := Some n]> db.
Proof. unfold set_user_name. by destruct (String.eqb n EmptyString). Qed.

(** Only [mark_day_complete] writes to [streaks]. *)
Lemma run_op_streaks o db :
  (∀ c u d, o ≠ MarkDayComplete c u d) ->
  streaks (run_op o db) = streaks db.
Proof.
  intros Hnot. destruct o; cbn; try done.
  - by destruct (Hnot chat_id0 user_id day0).
  - by rewrite get_streak_state.
  - by rewrite get_notify_time_db.
  - rewrite set_user_name_db. by destruct (String.eqb _ _).
Qed.

Lemma mark_day_complete_row_ok c u day db :
  streaks_ok db -> streaks_ok (mark_day_complete c u day db).1.
Proof.
  intros Hok.
  pose proof (mark_day_complete_cases c u day db) as H.
  destruct (streak_state c u db) as [[cur best] last].
  destruct H as [[_ ->] | [(_ & e & ->) | (_ & cur' & Hcur & ->)]]; try done.
  intros k r. cbn. destruct (decide (k = (c, u))) as [-> | Hk].
  - rewrite lookup_insert_eq. intros [= <-]. cbn. split; [lia | done].
  - rewrite lookup_insert_ne by done. apply Hok.
Qed.

Lemma run_op_streaks_ok o db : streaks_ok db -> streaks_ok (run_op o db).
Proof.
  intros Hok. destruct o;
    try (unfold streaks_ok; rewrite run_op_streaks by done; exact Hok).
  apply mark_day_complete_row_ok, Hok.
Qed.

Lemma best_of_mark_day_complete c u c' u' day db :
  best_of c u db <= best_of c u (mark_day_complete c' u' day db).1.
Proof.
  pose proof (mark_day_complete_cases c' u' day db) as H.
  destruct (streak_state c' u' db) as [[cur best] last] eqn:Hst.
  destruct H as [[_ ->] | [(_ & e & ->) | (_ & cur' & Hcur & ->)]]; try done.
  unfold best_of, streak_state. cbn.
  destruct (decide ((c', u') = (c, u))) as [[= -> ->] | Hk].
  - rewrite lookup_insert_eq. unfold streak_state in Hst. rewrite Hst. cbn. lia.
  - by rewrite lookup_insert_ne.
Qed.

Lemma best_of_run_op c u o db : best_of c u db <= best_of c u (run_op o db).
Proof.
  destruct o;
    try (unfold best_of, streak_state; rewrite run_op_streaks by done; lia).
  apply best_of_mark_day_complete.
Qed.

Lemma run_ops_app l1 l2 db : run_ops (l1 ++ l2) db = run_ops l2 (run_ops l1 db).
Proof. apply foldl_app. Qed.

(** ** C3 *)

(** C3: in every state reachable from the empty store by any sequence of
    the exposed operations, every [StreakState] row has
    [best_streak >= current_streak], and [current_streak > 0] implies that
    [last_completed_day] is set; and the best streak of a key never
    decreases along any such sequence (nor under any single operation
    from any state). *)
Theorem streak_invariant :
  (∀ ops, streaks_ok (run_ops ops empty_store))
  ∧ (∀ c u ops ops',
       best_of c u (run_ops ops empty_store)
       <= best_of c u (run_ops (ops ++ ops') empty_store))
  ∧ (∀ c u o db, best_of c u db <= best_of c u (run_op o db)).
Proof.
  split; [|split].
  - intros ops. induction ops as [|o ops IH] using rev_ind.
    + intros k r. cbn. by rewrite lookup_empty.
    + rewrite run_ops_app. cbn. by apply run_op_streaks_ok.
  - intros c u ops ops'. rewrite run_ops_app.
    generalize (run_ops ops empty_store). intros db.
    induction ops' as [|o ops' IH] using rev_ind; [cbn; lia|].
    rewrite run_ops_app. cbn.
    etrans; [exact IH | apply best_of_run_op].
  - intros. apply best_of_run_op.
Qed.

(* ================================================================== *)
(** * Daily counters                                                   *)
(* ================================================================== *)

Lemma get_daily_count_eq c u day db :
  get_daily_count c u day db = (db, Ok (count_of c u day db)).
Proof. unfold get_daily_count. by apply transact_read. Qed.

Lemma inc_daily_count_eq c u day db :
  inc_daily_count c u day db
  = (set_daily_progress <[(c, u, day) := count_of c u day db + 1]> db,
     Ok (count_of c u day db + 1)).
Proof.
  unfold inc_daily_count, count_of. apply transact_Ok.
  unfold set_daily_progress, upsert_daily. cbn.
  destruct (daily_progress db !! (c, u, day)) as [n|]; by rewrite lookup_insert_eq.
Qed.

Lemma count_of_insert c u day n db :
  count_of c u day (set_daily_progress <[(c, u, day) := n]> db) = n.
Proof. unfold count_of. cbn. by rewrite lookup_insert_eq. Qed.

Lemma inc_many_from n : ∀ c u day db,
  (inc_many n c u day db).1
  = (fun i => Ok (count_of c u day db + Z.of_nat i)) <$> seq 1 n
  ∧ (n ≠ 0%nat ->
     count_of c u day (inc_many n c u day db).2 = count_of c u day db + Z.of_nat n)
  ∧ (n = 0%nat -> (inc_many n c u day db).2 = db).
Proof.
  induction n as [|n IH]; intros c u day db; [done|].
  cbn [inc_many]. rewrite inc_daily_count_eq.
  set (db1 := set_daily_progress _ db).
  destruct (IH c u day db1) as (Hrs & Hcount & Hzero).
  destruct (inc_many n c u day db1) as [rs db2] eqn:E. cbn in *.
  assert (count_of c u day db1 = count_of c u day db + 1) as Hdb1
    by apply count_of_insert.
  split; [|split; [|done]].
  - rewrite Hrs. f_equal.
    rewrite <- (fmap_S_seq 1), <- list_fmap_compose.
    apply list_fmap_ext. intros ? i _. cbn. rewrite Hdb1. f_equal. lia.
  - intros _. destruct n as [|n'].
    + rewrite Hzero by done. rewrite Hdb1. lia.
    + rewrite Hcount by done. rewrite Hdb1. lia.
Qed.

(** ** C4 *)

(** C4: [inc_daily_count] creates the row with count 1 when it is absent
    and adds 1 to the count otherwise, and returns the new count; for a
    key without a row, [n] successive calls for the same day return
    [1, 2, ..., n] in order and leave the stored count equal to [n]. *)
Theorem inc_daily_count_counts (c u : Z) (day : string) (db : Store) :
  (∃ db', inc_daily_count c u day db
          = (db', Ok (match daily_progress db !! (c, u, day) with
                      | Some count => count + 1
                      | None => 1
                      end))
          ∧ daily_progress db'
            = <[(c, u, day) := match daily_progress db !! (c, u, day) with
                               | Some count => count + 1
                               | None => 1
                               end]> (daily_progress db)
          ∧ get_daily_count c u day db'
            = (db', Ok (match daily_progress db !! (c, u, day) with
                        | Some count => count + 1
                        | None => 1
                        end)))
  ∧ (daily_progress db !! (c, u, day) = None ->
     ∀ n, (inc_many n c u day db).1 = (fun i => Ok (Z.of_nat i)) <$> seq 1 n
          ∧ get_daily_count c u day (inc_many n c u day db).2
            = ((inc_many n c u day db).2, Ok (Z.of_nat n))).
Proof.
  split.
  - rewrite inc_daily_count_eq. unfold count_of.
    destruct (daily_progress db !! (c, u, day)) as [k|] eqn:E;
      (eexists; split; [reflexivity|]; split; [reflexivity|]);
      by rewrite get_daily_count_eq, count_of_insert.
  - intros Hnone n.
    assert (count_of c u day db = 0) as H0 by (unfold count_of; by rewrite Hnone).
    destruct (inc_many_from n c u day db) as (Hrs & Hcount & Hzero).
    split.
    + rewrite Hrs. apply list_fmap_ext. intros ? i _. rewrite H0. f_equal.
    + rewrite get_daily_count_eq. do 2 f_equal.
      destruct n as [|n']; [by rewrite Hzero|].
      rewrite Hcount by done. lia.
Qed.

Lemma inc_daily_count_counts_witness :
  daily_progress empty_store !! (7, 42, "2024-01-01") = None
  ∧ (inc_many 5 7 42 "2024-01-01" empty_store).1 = [Ok 1; Ok 2; Ok 3; Ok 4; Ok 5]
  ∧ get_daily_count 7 42 "2024-01-01" (inc_many 5 7 42 "2024-01-01" empty_store).2
    = ((inc_many 5 7 42 "2024-01-01" empty_store).2, Ok 5).
Proof.
  assert (daily_progress empty_store !! (7, 42, "2024-01-01") = None) as Hnone
    by reflexivity.
  split; [exact Hnone|].
  exact (proj2 (inc_daily_count_counts 7 42 "2024-01-01" empty_store) Hnone 5%nat).
Defined.

(* ================================================================== *)
(** * Reads of a key that was never written                            *)
(* ================================================================== *)

Lemma no_rows_empty c u : no_rows c u empty_store.
Proof. unfold no_rows. cbn. repeat split; try done; by constructor. Qed.

Lemma no_rows_run_op c u o db :
  written_key o ≠ Some (c, u) -> no_rows c u db -> no_rows c u (run_op o db).
Proof.
  intros Hkey (Hres & Hdaily & Hstreak & Hpref & Hname).
  destruct o as [c' u' b | | | c' u' d | c' u' d | | c' u' h m tz | | c' u' n | |];
    cbn in Hkey; cbn [run_op].
  - (* record_result *)
    unfold no_rows; cbn. repeat split; try done.
    apply Forall_app. split; [done|]. constructor; [|constructor].
    cbn. intros [-> ->]. done.
  - done.
  - by rewrite get_daily_count_eq.
  - (* inc_daily_count *)
    rewrite inc_daily_count_eq. unfold no_rows; cbn. repeat split; try done.
    intros day. rewrite lookup_insert_ne; [done|]. intros [= -> -> _]. done.
  - (* mark_day_complete *)
    pose proof (mark_day_complete_cases c' u' d db) as H.
    destruct (streak_state c' u' db) as [[cur best] last].
    destruct H as [[_ ->] | [(_ & e & ->) | (_ & cur' & _ & ->)]];
      [by repeat split.. |].
    unfold no_rows; cbn. repeat split; try done.
    rewrite lookup_insert_ne; [done|]. intros [= -> ->]. done.
  - by rewrite get_streak_state.
  - (* set_notify_time *)
    unfold no_rows; cbn. repeat split; try done.
    rewrite lookup_insert_ne; [done|]. intros [= -> ->]. done.
  - by rewrite get_notify_time_db.
  - (* set_user_name *)
    rewrite set_user_name_db. destruct (String.eqb n EmptyString); [done|].
    unfold no_rows; cbn. repeat split; try done.
    rewrite lookup_insert_ne; [done|]. intros [= -> ->]. done.
  - done.
  - done.
Qed.

Lemma no_rows_run_ops c u ops : ∀ db,
  Forall (fun o => written_key o ≠ Some (c, u)) ops ->
  no_rows c u db -> no_rows c u (run_ops ops db).
Proof.
  induction ops as [|o ops IH]; intros db Hops Hno; [done|].
  inversion Hops; subst. cbn. apply IH; [done|]. by apply no_rows_run_op.
Qed.

Lemma filter_none {A} (P : A -> Prop) `{∀ x, Decision (P x)} (l : list A) :
  Forall (fun x => ¬ P x) l -> filter P l = [].
Proof.
  induction 1 as [|x l Hx _ IH]; [done|].
  rewrite filter_cons. by destruct (decide (P x)).
Qed.

(** ** C5 *)

(** C5: for a key under which no operation has written, the reads return
    their empty values and do not raise: [get_daily_count] returns 0 for
    any day, [get_streak] returns [(0, 0, None)], [get_notify_time]
    returns [None] and [get_score] returns [(0, 0)]; the database is left
    as it was. *)
Theorem reads_of_unwritten_key (c u : Z) (ops : list op) :
  Forall (fun o => written_key o ≠ Some (c, u)) ops ->
  let db := run_ops ops empty_store in
  (∀ day, get_daily_count c u day db = (db, Ok 0))
  ∧ get_streak c u db = (db, Ok (0, 0, None))
  ∧ get_notify_time c u db = (db, Ok None)
  ∧ get_score c u db = (db, Ok (0, 0)).
Proof.
  intros Hops db.
  destruct (no_rows_run_ops c u ops empty_store Hops (no_rows_empty c u))
    as (Hres & Hdaily & Hstreak & Hpref & _).
  fold db in Hres, Hdaily, Hstreak, Hpref.
  repeat split.
  - intros day. rewrite get_daily_count_eq. unfold count_of. by rewrite Hdaily.
  - rewrite get_streak_state. unfold streak_state. by rewrite Hstreak.
  - unfold get_notify_time. apply transact_read. by rewrite Hpref.
  - unfold get_score. apply transact_read.
    by rewrite (filter_none _ _ Hres).
Qed.

Lemma reads_of_unwritten_key_witness :
  let ops := [IncDailyCount 7 1 "2024-01-01"; MarkDayComplete 7 1 "2024-01-01";
              SetNotifyTime 8 42 7 30 "Asia/Kolkata"; RecordResult 7 43 true] in
  let db := run_ops ops empty_store in
  Forall (fun o => written_key o ≠ Some (7, 42)) ops
  ∧ get_daily_count 7 42 "2024-01-01" db = (db, Ok 0)
  ∧ get_streak 7 42 db = (db, Ok (0, 0, None))
  ∧ get_notify_time 7 42 db = (db, Ok None)
  ∧ get_score 7 42 db = (db, Ok (0, 0)).
Proof.
  intros ops db.
  assert (Forall (fun o => written_key o ≠ Some (7, 42)) ops) as Hops
    by (repeat constructor; discriminate).
  split; [exact Hops|].
  destruct (reads_of_unwritten_key 7 42 ops Hops) as (Hd & Hs & Hn & Hsc).
  exact (conj (Hd "2024-01-01") (conj Hs (conj Hn Hsc))).
Defined.

(* ================================================================== *)
(** * The transaction scope                                            *)
(* ================================================================== *)

(** ** C7 *)

(** C7, as stated, fails on one exit path: when the work ends in an
    exception that is not an [Exception] (here [KeyboardInterrupt]), the
    [except Exception] clause does not run, so neither [commit] nor
    [rollback] is called; the connection is only closed. *)
Lemma db_scope_neither_commit_nor_rollback :
  let work : Work unit :=
    fun v => (set_results (fun l => l ++ [(7, 42, 1)]) v, Raise KeyboardInterrupt) in
  calls (_db work empty_store).1 = [Close]
  ∧ commits_and_rollbacks (_db work empty_store).1 = 0%nat
  ∧ ¬ (∀ (work : Work unit) (db : Store),
         commits_and_rollbacks (_db work db).1 = 1%nat).
Proof.
  intros work. split; [reflexivity|]. split; [reflexivity|].
  intros H. specialize (H work empty_store). discriminate H.
Qed.

(** C7 (amended): for every body of work run inside the transaction
    scope,
    - if the work completes normally, [commit] is called exactly once and
      [rollback] never, and the work's writes are stored;
    - if the work raises an [Exception], [rollback] is called exactly once
      and [commit] never, the stored state is what it was before the
      call, and the same exception propagates;
    - if the work ends in an exception that is not an [Exception], neither
      is called; the connection is closed with the writes uncommitted, so
      the stored state is again what it was before the call, and the same
      exception propagates.
    The connection is closed on every path. *)
Theorem db_scope_commit_or_rollback {A} (work : Work A) (db : Store) :
  match (work db).2 with
  | Ok a =>
      _db work db = (mkConn (work db).1 (work db).1 [Commit; Close], Ok a)
      ∧ transact work db = ((work db).1, Ok a)
  | Raise e =>
      _db work db
      = (mkConn db db (if is_Exception e then [Rollback; Close] else [Close]), Raise e)
      ∧ transact work db = (db, Raise e)
  end
  ∧ (is_Ok (work db).2 = true
     ∨ (∃ e, (work db).2 = Raise e ∧ is_Exception e = true) ->
     commits_and_rollbacks (_db work db).1 = 1%nat).
Proof.
  unfold transact, _db. cbn.
  destruct (work db) as [v [a|e]] eqn:E; cbn.
  - split; [done|]. intros _. reflexivity.
  - destruct (is_Exception e) eqn:Ee; cbn.
    + split; [done|]. intros _. reflexivity.
    + split; [done|]. intros [? | (e' & [= <-] & He)]; congruence.
Qed.

Lemma db_scope_commit_or_rollback_witness :
  let work : Work unit :=
    fun v => (set_results (fun l => l ++ [(7, 42, 1)]) v, Raise ValueError) in
  commits_and_rollbacks (_db work empty_store).1 = 1%nat.
Proof.
  intros work.
  apply (proj2 (db_scope_commit_or_rollback work empty_store)).
  right. exists ValueError. split; reflexivity.
Defined.

(* ================================================================== *)
(** * Job names                                                        *)
(* ================================================================== *)

Lemma all_digits_uint d : all_digits (NilEmpty.string_of_uint d) = true.
Proof. induction d; cbn; auto. Qed.

(** [str n] is an optional minus sign and then digits, at least one. *)
Lemma str_shape n :
  ∃ s, all_digits s = true ∧ s ≠ EmptyString
       ∧ (str n = s ∨ str n = String "-" s).
Proof.
  unfold str. destruct n as [|p|p]; cbn.
  - exists "0"%string. auto.
  - exists (NilEmpty.string_of_uint (Pos.to_uint p)).
    pose proof (DecimalPos.Unsigned.to_uint_nonnil p) as Hnil.
    split; [apply all_digits_uint|]. split.
    + destruct (Pos.to_uint p); cbn; done.
    + left. unfold NilZero.string_of_uint. by destruct (Pos.to_uint p).
  - exists (NilEmpty.string_of_uint (Pos.to_uint p)).
    pose proof (DecimalPos.Unsigned.to_uint_nonnil p) as Hnil.
    split; [apply all_digits_uint|]. split.
    + destruct (Pos.to_uint p); cbn; done.
    + right. unfold NilZero.string_of_uint. by destruct (Pos.to_uint p).
Qed.

Lemma str_inj a b : str a = str b -> a = b.
Proof.
  unfold str. intros H. apply to_int_inj.
  assert (∀ z, NilZero.int_of_string (NilZero.string_of_int (Z.to_int z))
               = Some (Z.to_int z)) as Hrt.
  { intros z. apply NilZero.isi; destruct z; cbn; try discriminate.
    - intros [= E]. by apply DecimalPos.Unsigned.to_uint_nonnil in E.
    - intros [= E]. by apply DecimalPos.Unsigned.to_uint_nonnil in E. }
  pose proof (Hrt a) as Ha. rewrite H, Hrt in Ha. congruence.
Qed.

(** Where the first dash after a run of digits is, is determined. *)
Lemma digits_dash_unique a : ∀ a' b b',
  all_digits a = true -> all_digits a' = true ->
  String.append a (String "-" b) = String.append a' (String "-" b') ->
  a = a' ∧ b = b'.
Proof.
  induction a as [|x a IH]; intros [|x' a'] b b' Ha Ha' Heq; cbn in *.
  - by inversion Heq.
  - inversion Heq; subst. apply andb_prop in Ha' as [Hx _].
    apply bool_decide_eq_true in Hx. by destruct Hx.
  - inversion Heq; subst. apply andb_prop in Ha as [Hx _].
    apply bool_decide_eq_true in Hx. by destruct Hx.
  - inversion Heq; subst.
    apply andb_prop in Ha as [_ Ha]. apply andb_prop in Ha' as [_ Ha'].
    destruct (IH a' b b' Ha Ha' ltac:(done)) as [-> ->]. done.
Qed.

Lemma job_name_inj c u c' u' : job_name c u = job_name c' u' -> c = c' ∧ u = u'.
Proof.
  unfold job_name. cbn. intros Heq. inversion Heq as [H]. clear Heq.
  destruct (str_shape c) as (s & Hs & Hne & Hc).
  destruct (str_shape c') as (s' & Hs' & Hne' & Hc').
  assert (∀ x r, all_digits (String x r) = true -> x ≠ "-"%char) as Hnodash.
  { intros x r Hx ->. cbn in Hx. done. }
  assert (str c = str c' ∧ str u = str u') as [Hcc Huu].
  { destruct Hc as [Hc | Hc], Hc' as [Hc' | Hc']; rewrite Hc, Hc' in H |- *.
    - destruct (digits_dash_unique _ _ _ _ Hs Hs' H) as [-> ?]. done.
    - destruct s as [|x r]; [done|]. cbn in H. inversion H; subst.
      by apply Hnodash in Hs.
    - destruct s' as [|x r]; [done|]. cbn in H. inversion H; subst.
      by apply Hnodash in Hs'.
    - cbn in H. inversion H as [H1].
      destruct (digits_dash_unique _ _ _ _ Hs Hs' H1) as [-> ?]. done. }
  split; by apply str_inj.
Qed.

Lemma job_name_is_daily j c u : name j = job_name c u -> is_daily j = true.
Proof. unfold is_daily. intros ->. reflexivity. Qed.

(* ================================================================== *)
(** * Reconciling the job queue with the persisted reminders           *)
(* ================================================================== *)

Lemma filter_ext_elem {A} (P Q : A -> Prop)
    `{∀ x, Decision (P x)} `{∀ x, Decision (Q x)} (l : list A) :
  (∀ x, x ∈ l -> (P x <-> Q x)) -> filter P l = filter Q l.
Proof.
  induction l as [|x l IH]; intros Hext; [done|].
  rewrite !filter_cons.
  assert (filter P l = filter Q l) as ->
    by (apply IH; intros y Hy; apply Hext; by right).
  destruct (decide (P x)) as [HP | HP], (decide (Q x)) as [HQ | HQ]; try done;
    exfalso; apply (Hext x) in HP || apply (Hext x) in HQ; by try left.
Qed.

Lemma filter_all {A} (P : A -> Prop) `{∀ x, Decision (P x)} (l : list A) :
  (∀ x, x ∈ l -> P x) -> filter P l = l.
Proof.
  induction l as [|x l IH]; intros Hall; [done|].
  rewrite filter_cons_True by (apply Hall; left).
  f_equal. apply IH. intros y Hy. apply Hall. by right.
Qed.

(** The first loop of [_reschedule_all_jobs] removes the daily jobs and
    only them. *)
Lemma removal_loop l : ∀ q,
  foldl (fun q j => if is_daily j then schedule_removal j q else q) q l
  = filter (fun j => ¬ (is_daily j = true ∧ j ∈ l)) q.
Proof.
  induction l as [|j l IH]; intros q; cbn [foldl].
  - symmetry. apply filter_all. intros x _ [_ Hx]. by inversion Hx.
  - rewrite IH. destruct (is_daily j) eqn:Hj.
    + unfold schedule_removal. rewrite list_filter_filter.
      apply filter_ext_elem. intros x _. rewrite elem_of_cons. split.
      * intros [Hx Hne] [Hd [-> | Hl]]; [done|]. apply Hx. done.
      * intros Hx. split; [intros [Hd Hl]; apply Hx; auto|].
        intros ->. apply Hx. auto.
    + apply filter_ext_elem. intros x _. rewrite elem_of_cons. split.
      * intros Hx [Hd [-> | Hl]]; [congruence|]. apply Hx. done.
      * intros Hx [Hd Hl]. apply Hx. auto.
Qed.

Lemma remove_daily_jobs jq :
  foldl (fun q j => if is_daily j then schedule_removal j q else q) jq (jobs jq)
  = filter (fun j => is_daily j = false) jq.
Proof.
  unfold jobs. rewrite removal_loop. apply filter_ext_elem.
  intros x Hx. destruct (is_daily x); split; try done.
  - intros H. exfalso. apply H. done.
  - intros _ [? _]. done.
Qed.

Lemma elem_of_persisted_prefs c u h m tz db :
  (c, u, h, m, tz) ∈ persisted_prefs db
  <-> user_prefs db !! (c, u) = Some (Some h, Some m, Some tz).
Proof.
  unfold persisted_prefs. rewrite list_elem_of_omap. split.
  - intros ([[c' u'] [[[h'|] [m'|]] [tz'|]]] & Hin & Heq); cbn in Heq; try done.
    inversion Heq; subst. by apply elem_of_map_to_list in Hin.
  - intros Hl. exists ((c, u), (Some h, Some m, Some tz)).
    split; [by apply elem_of_map_to_list | done].
Qed.

Lemma NoDup_persisted_prefs db : NoDup (persisted_prefs db).
Proof.
  unfold persisted_prefs.
  pose proof (NoDup_map_to_list (user_prefs db)) as Hnd.
  induction Hnd as [|kv l Hnotin Hnd IH]; [constructor|].
  cbn. destruct (complete_pref kv) as [r|] eqn:Er; [|done].
  constructor; [|done]. intros Hin. apply list_elem_of_omap in Hin as (kv' & Hin & Er').
  assert (kv' = kv) as ->; [|done].
  destruct kv as [[c u] [[[h|] [m|]] [tz|]]], kv' as [[c' u'] [[[h'|] [m'|]] [tz'|]]];
    cbn in Er, Er'; congruence.
Qed.

Section reminders.

Variable zone_known : string -> bool.

Lemma install_all_ok rows : ∀ jq,
  Forall pref_in_range rows ->
  install_all zone_known rows jq = (jq ++ (job_of_row zone_known <$> rows), Ok tt).
Proof.
  induction rows as [|[[[[c u] h] m] tz] rows IH]; intros jq Hall.
  - cbn. by rewrite app_nil_r.
  - inversion Hall as [|? ? Hr Hrest]; subst. cbn in Hr. destruct Hr as [Hh Hm].
    cbn [install_all].
    unfold dtime.
    assert ((0 <=? h) && (h <=? 23) && (0 <=? m) && (m <=? 59) = true) as ->.
    { repeat (apply andb_true_intro; split); lia. }
    rewrite IH by done. unfold run_daily. rewrite <- app_assoc. done.
Qed.

Lemma is_daily_job_of_row r : is_daily (job_of_row zone_known r) = true.
Proof. destruct r as [[[[c u] h] m] tz]. reflexivity. Qed.

Lemma prefs_in_range_rows db :
  prefs_in_range db -> Forall pref_in_range (persisted_prefs db).
Proof.
  intros Hok. apply Forall_forall. intros [[[[c u] h] m] tz] Hin.
  apply elem_of_persisted_prefs in Hin. by apply Hok in Hin.
Qed.

(** What one call does when every persisted reminder is in range. *)
Lemma reschedule_all_jobs_eq jq db :
  prefs_in_range db ->
  _reschedule_all_jobs zone_known (Some jq) db
  = (Some (filter (fun j => is_daily j = false) jq
           ++ (job_of_row zone_known <$> persisted_prefs db)),
     db, Ok tt).
Proof.
  intros Hok. unfold _reschedule_all_jobs.
  rewrite remove_daily_jobs.
  unfold iter_all_notify_prefs.
  rewrite (transact_read _ db (Ok (persisted_prefs db))) by done.
  by rewrite install_all_ok by by apply prefs_in_range_rows.
Qed.

Lemma filter_not_daily_installed db :
  filter (fun j => is_daily j = false) (job_of_row zone_known <$> persisted_prefs db) = [].
Proof.
  apply filter_none. apply Forall_forall. intros j Hj.
  apply list_elem_of_fmap in Hj as (r & -> & _). by rewrite is_daily_job_of_row.
Qed.

(** After a call, a persisted reminder has exactly one job of its name. *)
Lemma one_job_per_pref jq db c u h m tz :
  user_prefs db !! (c, u) = Some (Some h, Some m, Some tz) ->
  get_jobs_by_name (job_name c u)
    (filter (fun j => is_daily j = false) jq
     ++ (job_of_row zone_known <$> persisted_prefs db))
  = [job_of_row zone_known (c, u, h, m, tz)].
Proof.
  intros Hrow. unfold get_jobs_by_name. rewrite filter_app.
  assert (filter (fun j => name j = job_name c u)
            (filter (fun j => is_daily j = false) jq) = []) as ->.
  { apply filter_none. apply Forall_forall. intros j Hj Hname.
    apply list_elem_of_filter in Hj as [Hnd _].
    apply job_name_is_daily in Hname. congruence. }
  cbn [app].
  assert (∀ r, r ∈ persisted_prefs db ->
               name (job_of_row zone_known r) = job_name c u -> r = (c, u, h, m, tz))
    as Huniq.
  { intros [[[[c' u'] h'] m'] tz'] Hin Hname. cbn in Hname.
    apply job_name_inj in Hname as [-> ->].
    apply elem_of_persisted_prefs in Hin. congruence. }
  pose proof (proj2 (elem_of_persisted_prefs c u h m tz db) Hrow) as Hin.
  generalize (NoDup_persisted_prefs db). revert Hin Huniq.
  generalize (persisted_prefs db). intros rows Hin Huniq Hnd.
  induction Hnd as [|r rows Hnotin Hnd IH]; [by inversion Hin|].
  rewrite fmap_cons, filter_cons.
  destruct (decide (name (job_of_row zone_known r) = job_name c u)) as [Hr | Hr].
  - assert (r = (c, u, h, m, tz)) as -> by (apply Huniq; [left | done]).
    f_equal. apply filter_none. apply Forall_forall. intros j Hj Hname.
    apply list_elem_of_fmap in Hj as (r' & -> & Hr').
    assert (r' = (c, u, h, m, tz)) as -> by (apply Huniq; [by right | done]).
    done.
  - apply IH.
    + inversion Hin; subst; [|done]. by destruct Hr.
    + intros r' Hr'. apply Huniq. by right.
Qed.

(** ** C8 *)

(** C8: when every persisted reminder is a [NotifyPref] (hour 0-23,
    minute 0-59), [_reschedule_all_jobs] succeeds on any job queue, and
    calling it a second time right away leaves the queue exactly as the
    first call left it.  In that queue each persisted reminder
    [(chat, user, hour, minute, tz)] has exactly one job of the name
    [daily-<chat>-<user>], the daily job at [hour:minute] in its zone
    carrying [(chat, user, tz)]; every daily job of the queue is the job
    of a persisted reminder; and the jobs that are not daily reminders
    are those of the starting queue. *)
Theorem reschedule_all_jobs_idempotent (jq : list Job) (db : Store) :
  prefs_in_range db ->
  ∃ jq1,
    _reschedule_all_jobs zone_known (Some jq) db = (Some jq1, db, Ok tt)
    ∧ _reschedule_all_jobs zone_known (Some jq1) db = (Some jq1, db, Ok tt)
    ∧ (∀ c u h m tz,
         user_prefs db !! (c, u) = Some (Some h, Some m, Some tz) ->
         get_jobs_by_name (job_name c u) jq1
         = [mkJob (job_name c u) c (u, tz)
              (Daily (mktime h m (safe_zoneinfo zone_known tz)))])
    ∧ (∀ j, j ∈ jq1 -> is_daily j = true ->
         ∃ c u h m tz,
           user_prefs db !! (c, u) = Some (Some h, Some m, Some tz)
           ∧ j = mkJob (job_name c u) c (u, tz)
                   (Daily (mktime h m (safe_zoneinfo zone_known tz))))
    ∧ filter (fun j => is_daily j = false) jq1
      = filter (fun j => is_daily j = false) jq.
Proof.
  intros Hok. eexists. split; [by apply reschedule_all_jobs_eq|].
  set (keep := filter (fun j => is_daily j = false) jq).
  set (new := job_of_row zone_known <$> persisted_prefs db).
  assert (filter (fun j => is_daily j = false) (keep ++ new) = keep) as Hkeep.
  { rewrite filter_app. subst keep new.
    rewrite filter_not_daily_installed, app_nil_r.
    by apply list_filter_filter_l. }
  split; [|split; [|split]].
  - rewrite reschedule_all_jobs_eq by done. by rewrite Hkeep.
  - intros c u h m tz Hrow. by apply one_job_per_pref.
  - intros j Hj Hd. apply elem_of_app in Hj as [Hj | Hj].
    + apply list_elem_of_filter in Hj as [Hnd _]. congruence.
    + subst new. apply list_elem_of_fmap in Hj as ([[[[c u] h] m] tz] & -> & Hin).
      apply elem_of_persisted_prefs in Hin. by exists c, u, h, m, tz.
  - exact Hkeep.
Qed.

End reminders.

(* ================================================================== *)
(** * Cancelling a reminder                                            *)
(* ================================================================== *)

(** The loop of [unnotify]: every job of [l] leaves the queue. *)
Lemma cancel_loop l : ∀ q b,
  foldl (fun '(q, _) j => (schedule_removal j q, true)) (q, b) l
  = (filter (fun j => j ∉ l) q, if l is [] then b else true).
Proof.
  induction l as [|j l IH]; intros q b; cbn [foldl].
  - f_equal. symmetry. apply filter_all. intros x _ Hx. by inversion Hx.
  - rewrite IH. f_equal; [|by destruct l].
    unfold schedule_removal. rewrite list_filter_filter.
    apply filter_ext_elem. intros x _. rewrite not_elem_of_cons. tauto.
Qed.

Lemma cancel_by_name n jq :
  filter (fun j => j ∉ get_jobs_by_name n jq) jq = filter (fun j => name j ≠ n) jq.
Proof.
  apply filter_ext_elem. intros x Hx. unfold get_jobs_by_name.
  rewrite list_elem_of_filter. tauto.
Qed.

Lemma set_user_name_Ok c u n db :
  set_user_name c u n db = ((set_user_name c u n db).1, Ok tt).
Proof. unfold set_user_name. by destruct (String.eqb n EmptyString). Qed.

Lemma set_user_name_prefs c u n db :
  user_prefs (set_user_name c u n db).1 = user_prefs db.
Proof. rewrite set_user_name_db. by destruct (String.eqb n EmptyString). Qed.

Lemma unnotify_eq update jq db :
  unnotify update (Some jq) db
  = (Some (filter (fun j => name j ≠ job_name (effective_chat_id update)
                                             (id (effective_user update))) jq),
     (set_user_name (effective_chat_id update) (id (effective_user update))
        (_display_name (effective_user update)) db).1,
     Ok (if get_jobs_by_name (job_name (effective_chat_id update)
                                       (id (effective_user update))) jq is []
         then NothingToCancel else ReminderDisabled)).
Proof.
  unfold unnotify. rewrite set_user_name_Ok.
  rewrite cancel_loop, cancel_by_name.
  by destruct (get_jobs_by_name _ jq).
Qed.

Section cancel.

Variable zone_known : string -> bool.

(** ** C9 *)

(** C9: the [unnotify] handler removes from the job queue the jobs named
    [daily-<chat>-<user>] and no other job, and it leaves the [user_prefs]
    table (and with it the user's persisted row) exactly as it was; so, if
    the user's row is there (and the persisted reminders are in range), a
    following [_reschedule_all_jobs] installs the user's daily job
    again. *)
Theorem unnotify_keeps_persisted_row (update : Update) (jq : list Job) (db : Store) :
  let c := effective_chat_id update in
  let u := id (effective_user update) in
  (∀ job_queue, user_prefs (unnotify update job_queue db).1.2 = user_prefs db)
  ∧ ∃ jq' db' r,
    unnotify update (Some jq) db = (Some jq', db', Ok r)
    ∧ jq' = filter (fun j => name j ≠ job_name c u) jq
    ∧ get_jobs_by_name (job_name c u) jq' = []
    ∧ user_prefs db' = user_prefs db
    ∧ results db' = results db
    ∧ daily_progress db' = daily_progress db
    ∧ streaks db' = streaks db
    ∧ (prefs_in_range db ->
       ∀ h m tz,
         user_prefs db !! (c, u) = Some (Some h, Some m, Some tz) ->
         ∃ jq'',
           _reschedule_all_jobs zone_known (Some jq') db' = (Some jq'', db', Ok tt)
           ∧ get_jobs_by_name (job_name c u) jq''
             = [mkJob (job_name c u) c (u, tz)
                  (Daily (mktime h m (safe_zoneinfo zone_known tz)))]).
Proof.
  intros c u. split.
  { intros [jq0|].
    - rewrite unnotify_eq. apply set_user_name_prefs.
    - unfold unnotify. rewrite set_user_name_Ok. apply set_user_name_prefs. }
  rewrite unnotify_eq. fold c u.
  set (db' := (set_user_name c u _ db).1).
  assert (user_prefs db' = user_prefs db) as Hprefs by apply set_user_name_prefs.
  eexists _, db', _. split; [reflexivity|]. split; [reflexivity|].
  split.
  { unfold get_jobs_by_name. rewrite list_filter_filter.
    apply filter_none. apply Forall_forall. intros j _ [? ?]. done. }
  split; [done|].
  subst db'. rewrite set_user_name_db.
  destruct (String.eqb _ EmptyString) eqn:Hn; (do 3 (split; [done|])).
  - intros Hok h m tz Hrow.
    eexists. split; [by apply reschedule_all_jobs_eq|].
    by apply one_job_per_pref.
  - intros Hok h m tz Hrow.
    set (db' := set_user_names _ db).
    eexists. split; [by apply (reschedule_all_jobs_eq zone_known _ db')|].
    by apply (one_job_per_pref zone_known _ db').
Qed.

End cancel.

Lemma prefs_in_range_empty : prefs_in_range empty_store.
Proof. intros c u h m tz. cbn. by rewrite lookup_empty. Qed.

(** A reminder written with a validated time keeps the table in range. *)
Lemma prefs_in_range_set_notify_time c u h m tz db :
  0 <= h <= 23 -> 0 <= m <= 59 ->
  prefs_in_range db -> prefs_in_range (set_notify_time c u h m tz db).1.
Proof.
  intros Hh Hm Hok c' u' h' m' tz'. cbn.
  destruct (decide ((c, u) = (c', u'))) as [[= <- <-] | Hne].
  - rewrite lookup_insert_eq. intros [= <- <- _]. done.
  - rewrite lookup_insert_ne by done. apply Hok.
Qed.

Lemma reschedule_all_jobs_idempotent_witness :
  let zone_known := fun tz => String.eqb tz "UTC" in
  let db := (set_notify_time (-100) 7 7 30 "Asia/Kolkata" empty_store).1 in
  let jq := [mkJob "daily--100-7" (-100) (7, "UTC") (Daily (mktime 6 0 "UTC"));
             mkJob "test-daily--100-7" (-100) (7, "UTC") (Once 2)] in
  prefs_in_range db
  ∧ ∃ jq1,
      _reschedule_all_jobs zone_known (Some jq) db = (Some jq1, db, Ok tt)
      ∧ _reschedule_all_jobs zone_known (Some jq1) db = (Some jq1, db, Ok tt)
      ∧ get_jobs_by_name "daily--100-7" jq1
        = [mkJob "daily--100-7" (-100) (7, "Asia/Kolkata")
             (Daily (mktime 7 30 "Asia/Kolkata"))].
Proof.
  intros zone_known db jq.
  assert (prefs_in_range db) as Hok.
  { apply prefs_in_range_set_notify_time; [lia | lia | apply prefs_in_range_empty]. }
  split; [exact Hok|].
  destruct (reschedule_all_jobs_idempotent zone_known jq db Hok)
    as (jq1 & H1 & H2 & Hone & _).
  exists jq1. split; [exact H1|]. split; [exact H2|].
  exact (Hone (-100) 7 7 30 "Asia/Kolkata"%string eq_refl).
Defined.

Lemma unnotify_keeps_persisted_row_witness :
  let zone_known := fun tz => String.eqb tz "UTC" in
  let db := (set_notify_time 5 6 8 0 "UTC" empty_store).1 in
  let update := mkUpdate 5 (mkUser 6 "Ann" (Some "Lee") None) in
  let jq := [mkJob "daily-5-6" 5 (6, "UTC") (Daily (mktime 8 0 "UTC"))] in
  prefs_in_range db
  ∧ user_prefs db !! (5, 6) = Some (Some 8, Some 0, Some "UTC")
  ∧ ∃ jq' db' r,
      unnotify update (Some jq) db = (Some jq', db', Ok r)
      ∧ get_jobs_by_name "daily-5-6" jq' = []
      ∧ user_prefs db' = user_prefs db
      ∧ ∃ jq'',
          _reschedule_all_jobs zone_known (Some jq') db' = (Some jq'', db', Ok tt)
          ∧ get_jobs_by_name "daily-5-6" jq''
            = [mkJob "daily-5-6" 5 (6, "UTC") (Daily (mktime 8 0 "UTC"))].
Proof.
  intros zone_known db update jq.
  assert (prefs_in_range db) as Hok.
  { apply prefs_in_range_set_notify_time; [lia | lia | apply prefs_in_range_empty]. }
  assert (user_prefs db !! (5, 6) = Some (Some 8, Some 0, Some "UTC"%string)) as Hrow
    by reflexivity.
  split; [exact Hok|]. split; [exact Hrow|].
  destruct (unnotify_keeps_persisted_row zone_known update jq db)
    as (_ & jq' & db' & r & Hcall & _ & Hgone & Hprefs & _ & _ & _ & Hagain).
  exists jq', db', r. split; [exact Hcall|]. split; [exact Hgone|].
  split; [exact Hprefs|].
  exact (Hagain Hok 8 0 "UTC"%string Hrow).
Defined.

(* ================================================================== *)
(** * Start-up and corruption recovery                                 *)
(* ================================================================== *)

Lemma fresh_database :
  let '(schema, indexes, rows) := _create_or_migrate_schema (∅, ∅, empty_store) in
  fresh (Sqlite schema indexes rows) ∧ schema_complete (Sqlite schema indexes rows).
Proof.
  cbn. split; [split; reflexivity|]. split; [|split].
  - intros t cols Hin. unfold required_schema in Hin.
    repeat (apply elem_of_cons in Hin as [[= -> ->] | Hin];
            [eexists; split; reflexivity |]).
    by inversion Hin.
  - vm_compute. done.
  - vm_compute. done.
Qed.

Lemma sleeps_snoc l e :
  sleeps (l ++ [e]) = sleeps l ++ match e with Sleep k => [k] | _ => [] end.
Proof. unfold sleeps. rewrite omap_app. by destruct e. Qed.

Lemma removals_snoc p l e :
  removals p (l ++ [e]) = (removals p l + if decide (e = TryRemove p) then 1 else 0)%nat.
Proof.
  unfold removals. rewrite filter_app, length_app. f_equal.
  rewrite filter_cons. by destruct (decide (e = TryRemove p)).
Qed.

#[local] Arguments sleeps : simpl never.
#[local] Arguments removals : simpl never.

Ltac log_facts :=
  rewrite ?sleeps_snoc, ?removals_snoc, ?app_nil_r; cbn;
  repeat case_decide; repeat split; try done; try lia.

Section recovery.

Variable locked : path -> nat -> bool.

(** One turn of the rotation loop while the database file is locked: the
    turn fails with [PermissionError] and sleeps. *)
Lemma rotate_turn_locked i range w c :
  db_file w = Some c ->
  locked DB_PATH (clock w) = true ->
  ∃ w1, rotate_loop locked (i :: range) w = rotate_loop locked range w1
        ∧ db_file w1 = Some c
        ∧ clock w1 = (clock w + (i + 1))%nat
        ∧ sleeps (log w1) = sleeps (log w) ++ [(i + 1)%nat]
        ∧ removals DB_PATH (log w1) = removals DB_PATH (log w).
Proof.
  intros Hdb Hlock. destruct w as [d s t l]. cbn in Hdb, Hlock. subst d.
  cbn [rotate_loop]. unfold os_path_exists, os_remove, os_replace. cbn.
  destruct s as [old|]; cbn.
  - destruct (locked corrupt_path t) eqn:Hs; cbn.
    + eexists. split; [reflexivity|]. cbn.
      log_facts.
    + rewrite Hlock. cbn. eexists. split; [reflexivity|]. cbn.
      log_facts.
  - rewrite Hlock. cbn. eexists. split; [reflexivity|]. cbn.
    log_facts.
Qed.

Lemma rotate_loop_locked range : ∀ w c,
  db_file w = Some c ->
  (∀ t, (clock w <= t <= clock w + sum_list (S <$> range))%nat ->
        locked DB_PATH t = true) ->
  ∃ w', rotate_loop locked range w = (w', None)
        ∧ db_file w' = Some c
        ∧ clock w' = (clock w + sum_list (S <$> range))%nat
        ∧ sleeps (log w') = sleeps (log w) ++ (S <$> range)
        ∧ removals DB_PATH (log w') = removals DB_PATH (log w).
Proof.
  induction range as [|i range IH]; intros w c Hdb Hlock.
  - exists w. cbn. rewrite app_nil_r. repeat split; try done; lia.
  - assert (sum_list (S <$> i :: range) = (S i + sum_list (S <$> range))%nat) as Hsum
      by reflexivity.
    rewrite Hsum in Hlock |- *.
    destruct (rotate_turn_locked i range w c Hdb) as (w1 & -> & Hdb1 & Hc1 & Hs1 & Hr1).
    { apply Hlock. lia. }
    destruct (IH w1 c Hdb1) as (w' & -> & Hdb' & Hc' & Hs' & Hr').
    { intros t Ht. apply Hlock. lia. }
    exists w'. split; [done|]. split; [done|].
    split; [lia|]. split; [|congruence].
    rewrite Hs', Hs1, <- app_assoc. cbn. do 3 f_equal. lia.
Qed.

Lemma remove_turn_locked i range w c :
  db_file w = Some c ->
  locked DB_PATH (clock w) = true ->
  ∃ w1, remove_loop locked (i :: range) w = remove_loop locked range w1
        ∧ db_file w1 = Some c
        ∧ clock w1 = (clock w + (i + 1))%nat
        ∧ sleeps (log w1) = sleeps (log w) ++ [(i + 1)%nat]
        ∧ removals DB_PATH (log w1) = S (removals DB_PATH (log w)).
Proof.
  intros Hdb Hlock. destruct w as [d s t l]. cbn in Hdb, Hlock. subst d.
  cbn [remove_loop]. unfold os_path_exists, os_remove. cbn. rewrite Hlock. cbn.
  eexists. split; [reflexivity|]. cbn.
  log_facts.
Qed.

Lemma remove_loop_locked range : ∀ w c,
  db_file w = Some c ->
  (∀ t, (clock w <= t <= clock w + sum_list (S <$> range))%nat ->
        locked DB_PATH t = true) ->
  ∃ w', remove_loop locked range w = (w', None)
        ∧ db_file w' = Some c
        ∧ clock w' = (clock w + sum_list (S <$> range))%nat
        ∧ sleeps (log w') = sleeps (log w) ++ (S <$> range)
        ∧ removals DB_PATH (log w') = (removals DB_PATH (log w) + length range)%nat.
Proof.
  induction range as [|i range IH]; intros w c Hdb Hlock.
  - exists w. cbn. rewrite app_nil_r. repeat split; try done; lia.
  - assert (sum_list (S <$> i :: range) = (S i + sum_list (S <$> range))%nat) as Hsum
      by reflexivity.
    rewrite Hsum in Hlock |- *.
    destruct (remove_turn_locked i range w c Hdb) as (w1 & -> & Hdb1 & Hc1 & Hs1 & Hr1).
    { apply Hlock. lia. }
    destruct (IH w1 c Hdb1) as (w' & -> & Hdb' & Hc' & Hs' & Hr').
    { intros t Ht. apply Hlock. lia. }
    exists w'. split; [done|]. split; [done|].
    split; [lia|]. split; [|cbn [length]; lia].
    rewrite Hs', Hs1, <- app_assoc. cbn. do 3 f_equal. lia.
Qed.

(** With nothing locked, the first rotation succeeds. *)
Lemma rotate_unlocked w bytes :
  db_file w = Some (Garbage bytes) ->
  locked DB_PATH (clock w) = false ->
  corrupt_file w = None ∨ locked corrupt_path (clock w) = false ->
  ∃ w', _try_rotate_or_remove locked w = (w', true)
        ∧ db_file w' = None
        ∧ corrupt_file w' = Some (Garbage bytes)
        ∧ clock w' = clock w
        ∧ sleeps (log w') = sleeps (log w).
Proof.
  intros Hdb Hlock Hsib. destruct w as [d s t l]. cbn in *. subst d.
  unfold _try_rotate_or_remove. cbn [seq rotate_loop].
  unfold os_path_exists, os_remove, os_replace. cbn.
  destruct s as [old|]; cbn.
  - destruct Hsib as [Hsib | Hsib]; [done|]. rewrite Hsib. cbn. rewrite Hlock. cbn.
    eexists. split; [reflexivity|]. cbn. log_facts.
  - rewrite Hlock. cbn.
    eexists. split; [reflexivity|]. cbn. log_facts.
Qed.

(** ** C6 *)

(** C6, as stated, fails when the database file itself is not locked but
    an older [.corrupt] sibling is: every rotation attempt fails on
    removing the sibling, the fallback then deletes the corrupt database
    file, and [init_db] succeeds on a fresh database without the corrupt
    file having been preserved anywhere. *)
Lemma init_db_corrupt_file_not_preserved :
  let locked := fun (p : path) (_ : nat) => bool_decide (p = corrupt_path) in
  let w := mkWorld (Some (Garbage "new")) (Some (Garbage "old")) 0 [] in
  locked DB_PATH (clock w) = false
  ∧ ∃ w', init_db locked w = (w', Ok tt)
          ∧ corrupt_file w' = Some (Garbage "old")
          ∧ corrupt_file w' ≠ Some (Garbage "new")
          ∧ db_file w' ≠ Some (Garbage "new")
          ∧ removals DB_PATH (log w') = 1%nat.
Proof.
  intros locked0 w. split; [reflexivity|].
  eexists. split; [vm_compute; reflexivity|].
  repeat split; try discriminate; reflexivity.
Qed.

(** C6 (amended): for an existing database file that fails its integrity
    probe,
    - if neither the file nor an already existing [.corrupt] sibling is
      locked, [init_db] succeeds without waiting, the corrupt file is
      preserved, byte for byte, under the [.corrupt] path, and a fresh,
      schema-complete database is in use afterwards;
    - if the file stays locked through the 5 rotation attempts and the 5
      deletion attempts (each followed by a sleep of 0.4 s times 1, 2, 3,
      4, 5), [init_db] fails with [DatabaseError]; the file is still
      there, and [os.remove] was tried on it exactly 5 times. *)
Theorem init_db_corrupt_file (w : World) (bytes : string) :
  db_file w = Some (Garbage bytes) ->
  (locked DB_PATH (clock w) = false ->
   corrupt_file w = None ∨ locked corrupt_path (clock w) = false ->
   ∃ w' c, init_db locked w = (w', Ok tt)
           ∧ corrupt_file w' = Some (Garbage bytes)
           ∧ db_file w' = Some c ∧ fresh c ∧ schema_complete c
           ∧ clock w' = clock w)
  ∧ ((∀ t, (clock w <= t <= clock w + 30)%nat -> locked DB_PATH t = true) ->
     ∃ w', init_db locked w = (w', Raise DatabaseError)
           ∧ db_file w' = Some (Garbage bytes)
           ∧ sleeps (log w') = sleeps (log w) ++ [1; 2; 3; 4; 5; 1; 2; 3; 4; 5]%nat
           ∧ removals DB_PATH (log w') = (removals DB_PATH (log w) + 5)%nat
           ∧ clock w' = (clock w + 30)%nat).
Proof.
  intros Hdb.
  assert (os_path_exists DB_PATH w && negb (_integrity_ok w) = true) as Hprobe.
  { unfold os_path_exists, _integrity_ok. cbn. by rewrite Hdb. }
  split.
  - intros Hlock Hsib. unfold init_db. rewrite Hprobe.
    destruct (rotate_unlocked w bytes Hdb Hlock Hsib)
      as (w1 & -> & Hdb1 & Hc1 & Hclock & _).
    cbn [negb]. unfold connect_and_migrate. rewrite Hdb1.
    pose proof fresh_database as Hfresh.
    destruct (_create_or_migrate_schema (∅, ∅, empty_store)) as [[schema indexes] rows].
    eexists _, _. split; [reflexivity|]. cbn. destruct Hfresh. done.
  - intros Hlock. unfold init_db. rewrite Hprobe. unfold _try_rotate_or_remove.
    assert (sum_list (S <$> seq 0 5) = 15%nat) as Hsum by reflexivity.
    destruct (rotate_loop_locked (seq 0 5) w _ Hdb) as (w1 & -> & Hdb1 & Hc1 & Hs1 & Hr1).
    { intros t Ht. apply Hlock. lia. }
    destruct (remove_loop_locked (seq 0 5) w1 _ Hdb1) as (w2 & -> & Hdb2 & Hc2 & Hs2 & Hr2).
    { intros t Ht. apply Hlock. lia. }
    exists w2. cbn [negb]. split; [done|]. split; [done|].
    split; [by rewrite Hs2, Hs1, <- app_assoc|].
    split; [by rewrite Hr2, Hr1|].
    lia.
Qed.

End recovery.

Lemma init_db_corrupt_file_witness :
  let unlocked := fun (_ : path) (_ : nat) => false in
  let held := fun (p : path) (_ : nat) => bool_decide (p = DB_PATH) in
  let w := mkWorld (Some (Garbage "junk")) None 0 [] in
  db_file w = Some (Garbage "junk")
  ∧ (∃ w' c, init_db unlocked w = (w', Ok tt)
             ∧ corrupt_file w' = Some (Garbage "junk")
             ∧ db_file w' = Some c ∧ fresh c ∧ schema_complete c
             ∧ clock w' = clock w)
  ∧ (∃ w', init_db held w = (w', Raise DatabaseError)
           ∧ db_file w' = Some (Garbage "junk")
           ∧ sleeps (log w') = sleeps (log w) ++ [1; 2; 3; 4; 5; 1; 2; 3; 4; 5]%nat
           ∧ removals DB_PATH (log w') = (removals DB_PATH (log w) + 5)%nat
           ∧ clock w' = (clock w + 30)%nat).
Proof.
  intros unlocked held w.
  assert (db_file w = Some (Garbage "junk")) as Hdb by reflexivity.
  split; [exact Hdb|]. split.
  - exact (proj1 (init_db_corrupt_file unlocked w "junk" Hdb) eq_refl (or_introl eq_refl)).
  - exact (proj2 (init_db_corrupt_file held w "junk" Hdb) (fun _ _ => eq_refl)).
Defined.
